(** * ProductsLoader: a shallow embedding of [src/actions/common/ProductsLoader.js]

    The file has four parts:
    - [Js]: the fragment of JavaScript values the loader touches (JSON
      values, [undefined], truthiness, [ToString], [ToNumber],
      [JSON.stringify]);
    - [Resolver]: [__searchProducts] and [loadingFunction], over a world that
      counts the backend calls;
    - [Loader]: the batching and caching engine behind [load];
    - the properties of the three. *)

From Stdlib Require Import ZArith Lia Ascii String DecimalZ DecimalPos.
From stdpp Require Import base option list strings gmap.

Local Open Scope Z_scope.

(** ** JavaScript values *)

Module Js.

(** A key handed to [load] is plain data: [JValue] is the JSON fragment of
    JavaScript values.  An object is the list of its own properties in
    insertion order, which is the order [JSON.stringify] writes them in (no
    property name of a key is an array index).  A number [JNum n] is the
    integer [n]: the page numbers and category ids of a key are integers.
    Strings are sequences of 8-bit code units. *)
#[local] Unset Elimination Schemes.
Inductive JValue : Type :=
  | JNull
  | JBool (b : bool)
  | JNum (n : Z)
  | JStr (s : string)
  | JArr (elems : list JValue)
  | JObj (props : list (string * JValue)).
#[local] Set Elimination Schemes.

(** A JavaScript value is a [JValue] or [undefined]; a property set to
    [undefined] reads, and serializes, like an absent one. *)
Definition value : Type := option JValue.
Definition undefined : value := None.

Section JValue_induction.
Variable P : JValue -> Prop.
Hypothesis Hnull : P JNull.
Hypothesis Hbool : forall b, P (JBool b).
Hypothesis Hnum : forall n, P (JNum n).
Hypothesis Hstr : forall s, P (JStr s).
Hypothesis Harr : forall elems, Forall P elems -> P (JArr elems).
Hypothesis Hobj : forall props, Forall (fun kv => P (snd kv)) props -> P (JObj props).

Fixpoint JValue_nested_ind (v : JValue) : P v :=
  match v with
  | JNull => Hnull
  | JBool b => Hbool b
  | JNum n => Hnum n
  | JStr s => Hstr s
  | JArr elems =>
      Harr elems
        ((fix go (l : list JValue) : Forall P l :=
            match l with
            | [] => @List.Forall_nil _ P
            | x :: l' => @List.Forall_cons _ P x l' (JValue_nested_ind x) (go l')
            end) elems)
  | JObj props =>
      Hobj props
        ((fix go (l : list (string * JValue)) : Forall (fun kv => P (snd kv)) l :=
            match l with
            | [] => @List.Forall_nil _ (fun kv => P (snd kv))
            | kv :: l' =>
                @List.Forall_cons _ (fun kv => P (snd kv)) kv l'
                  (JValue_nested_ind (snd kv)) (go l')
            end) props)
  end.
End JValue_induction.

(** Errors a promise can reject with: a [TypeError] raised by a dereference
    or a call on a value that does not support it, or a failure reported by
    the backend. *)
Inductive JSError : Type :=
  | TypeError
  | BackendError (reason : string).

(** Result of evaluating an expression that may throw. *)
Inductive Exc (A : Type) : Type :=
  | Return (a : A)
  | Throw (e : JSError).
Arguments Return {A} a.
Arguments Throw {A} e.

Definition bind {A B} (m : Exc A) (k : A -> Exc B) : Exc B :=
  match m with
  | Return a => k a
  | Throw e => Throw e
  end.

(** [ToBoolean]. *)
Definition truthy (v : value) : bool :=
  match v with
  | None => false
  | Some JNull => false
  | Some (JBool b) => b
  | Some (JNum n) => negb (n =? 0)
  | Some (JStr s) => negb (String.eqb s "")
  | Some (JArr _) => true
  | Some (JObj _) => true
  end.

(** Own-property lookup in an object's property list. *)
Fixpoint lookup_prop (name : string) (props : list (string * JValue)) : value :=
  match props with
  | [] => None
  | (k, v) :: rest => if String.eqb k name then Some v else lookup_prop name rest
  end.

(** [v.name] for the property names the loader reads ([filter], [sku],
    [url_key], [eq], [in], [SPREADSHEET]): reading a property of [undefined]
    or [null] throws, an object gives its own property, and any other value
    has no property of that name. *)
Definition get (v : value) (name : string) : Exc value :=
  match v with
  | None => Throw TypeError
  | Some JNull => Throw TypeError
  | Some (JObj props) => Return (lookup_prop name props)
  | Some _ => Return None
  end.

(** *** Decimal digits *)

Fixpoint digits_of_uint (d : Decimal.uint) : list ascii :=
  match d with
  | Decimal.Nil => []
  | Decimal.D0 d => "0"%char :: digits_of_uint d
  | Decimal.D1 d => "1"%char :: digits_of_uint d
  | Decimal.D2 d => "2"%char :: digits_of_uint d
  | Decimal.D3 d => "3"%char :: digits_of_uint d
  | Decimal.D4 d => "4"%char :: digits_of_uint d
  | Decimal.D5 d => "5"%char :: digits_of_uint d
  | Decimal.D6 d => "6"%char :: digits_of_uint d
  | Decimal.D7 d => "7"%char :: digits_of_uint d
  | Decimal.D8 d => "8"%char :: digits_of_uint d
  | Decimal.D9 d => "9"%char :: digits_of_uint d
  end.

(** [Number::toString] on an integer: decimal digits, with a minus sign for
    a negative one.  This is how JavaScript writes the integers below
    [10^21] in absolute value; from there on it writes an exponent. *)
Definition number_chars (n : Z) : list ascii :=
  match Z.to_int n with
  | Decimal.Pos d => digits_of_uint d
  | Decimal.Neg d => "-"%char :: digits_of_uint d
  end.

(** *** [JSON.stringify] *)

Definition chars (s : string) : list ascii := list_ascii_of_string s.

Definition hex_digit (n : N) : ascii :=
  ascii_of_N (if (n <? 10)%N then 48 + n else 87 + n).

(** [QuoteJSONString] on one code unit: the quote and the backslash are
    escaped, the control characters get their short escape or a [\u00xx]
    one, and any other code unit is copied. *)
Definition escape_char (c : ascii) : list ascii :=
  let n := N_of_ascii c in
  if (n =? 34)%N then ["\"%char; "034"%char]
  else if (n =? 92)%N then ["\"%char; "\"%char]
  else if (n =? 8)%N then ["\"%char; "b"%char]
  else if (n =? 12)%N then ["\"%char; "f"%char]
  else if (n =? 10)%N then ["\"%char; "n"%char]
  else if (n =? 13)%N then ["\"%char; "r"%char]
  else if (n =? 9)%N then ["\"%char; "t"%char]
  else if (n <? 32)%N then
    ["\"%char; "u"%char; "0"%char; "0"%char; hex_digit (n / 16); hex_digit (n mod 16)]
  else [c].

Definition quote_chars (s : string) : list ascii :=
  "034"%char :: flat_map escape_char (chars s) ++ ["034"%char].

(** Elements or properties separated by commas. *)
Fixpoint join_chars (parts : list (list ascii)) : list ascii :=
  match parts with
  | [] => []
  | [p] => p
  | p :: rest => p ++ ","%char :: join_chars rest
  end.

Fixpoint stringify_chars (v : JValue) : list ascii :=
  match v with
  | JNull => chars "null"
  | JBool true => chars "true"
  | JBool false => chars "false"
  | JNum n => number_chars n
  | JStr s => quote_chars s
  | JArr elems =>
      "["%char :: join_chars (map stringify_chars elems) ++ ["]"%char]
  | JObj props =>
      "{"%char ::
        join_chars
          (map (fun kv => quote_chars (fst kv) ++ ":"%char :: stringify_chars (snd kv)) props)
        ++ ["}"%char]
  end.

(** [JSON.stringify(v, null, 0)]: no replacer and no indentation. *)
Definition JSON_stringify (v : JValue) : string :=
  string_of_list_ascii (stringify_chars v).

(** *** [ToString], [ToNumber] and the string and array built-ins *)

(** Whether [ToString], and [ToNumber] after it, throws on plain data.  To
    convert an object is to call its [toString]; when the object has a
    property of that name, what is found there is data and cannot be called,
    [valueOf] gives no primitive either, and the conversion throws.  An
    array converts its elements, [null] apart. *)
Fixpoint to_string_throws (v : JValue) : bool :=
  match v with
  | JArr elems => existsb to_string_throws elems
  | JObj props =>
      match lookup_prop "toString" props with
      | Some _ => true
      | None => false
      end
  | _ => false
  end.

(** [ToString] on plain data, where it does not throw.  An array joins its
    elements with commas, a [null] element giving the empty string; an
    object without a [toString] of its own gives the fixed tag. *)
Fixpoint to_string (v : JValue) : string :=
  match v with
  | JNull => "null"
  | JBool true => "true"
  | JBool false => "false"
  | JNum n => string_of_list_ascii (number_chars n)
  | JStr s => s
  | JArr elems =>
      String.concat ","
        (map (fun e => match e with JNull => ""%string | _ => to_string e end) elems)
  | JObj _ => "[object Object]"
  end.

(** A value spliced into a template literal. *)
Definition template (v : value) : string :=
  match v with
  | None => "undefined"
  | Some j => to_string j
  end.

(** [s.includes(search)] on strings: [search] occurs in [s] at some
    position; code units are compared as they are, so case matters. *)
Fixpoint str_includes (s search : string) : bool :=
  String.prefix search s
  || match s with
     | EmptyString => false
     | String _ s' => str_includes s' search
     end.

(** The number a product evaluates to.  [Int n] is a number whose value is
    the integer [n] (the sign of a zero is not kept) and [NaN] is not a
    number.  [Times a b] is the product [a * b] left as it is written: its
    value is the one JavaScript gives it, which is not computed here. *)
Inductive JSNumber : Type :=
  | Int (n : Z)
  | NaN
  | Times (a b : value).

(** [ToNumber].  It throws where [ToString] does.  [undefined] is [NaN],
    [null] is 0, the booleans are 0 and 1, an integer up to [2^53] in
    absolute value is itself (doubles hold these exactly), and an object is
    [NaN], being converted through its tag.  A string and an array are
    converted by parsing a string, and a larger integer need not be a
    double: for these the number is not computed, and there is no answer
    here. *)
Definition to_number (v : value) : Exc (option JSNumber) :=
  match v with
  | None => Return (Some NaN)
  | Some j =>
      if to_string_throws j then Throw TypeError
      else Return match j with
                  | JNull => Some (Int 0)
                  | JBool b => Some (Int (if b then 1 else 0))
                  | JNum n => if Z.abs n <=? 2 ^ 53 then Some (Int n) else None
                  | JStr _ => None
                  | JArr _ => None
                  | JObj _ => Some NaN
                  end
  end.

(** Rounding of an integer to the nearest double (ties to even): integers up
    to [2^53] in absolute value are doubles already. *)
Definition round_double (x : Z) : Z :=
  let m := Z.abs x in
  if m <? 2 ^ 53 then x
  else
    let e := Z.log2 m - 52 in
    let q := m / 2 ^ e in
    let r := m mod 2 ^ e in
    let half := 2 ^ (e - 1) in
    let q' := if (half <? r) || ((r =? half) && Z.odd q) then q + 1 else q in
    Z.sgn x * (q' * 2 ^ e).

(** [a * b]: both operands are converted, the left one first.  Between two
    integers up to [2^53] the product is the exact one rounded to a double
    (at most [2^106], far from overflow); between two computed numbers of
    which one is [NaN] it is [NaN]; with an operand whose number is not
    computed the product is left as it is written. *)
Definition js_mul (a b : value) : Exc JSNumber :=
  bind (to_number a) (fun x =>
  bind (to_number b) (fun y =>
  Return match x, y with
         | Some (Int m), Some (Int n) => Int (round_double (m * n))
         | Some _, Some _ => NaN
         | _, _ => Times a b
         end)).

End Js.

Import Js.

(** A double quote, for writing serialized keys down. *)
Definition dq : string := String "034" EmptyString.

(** ** The key resolver *)

Module Resolver.

(** A key is a JavaScript object with the search parameters. *)
Definition LoadKey : Type := list (string * JValue).

(** [params.name] on a key. *)
Definition prop (params : LoadKey) (name : string) : value := lookup_prop name params.

(** Modelled from the spec: the rows that [services/googleSheet.js] (not
    among the sources) reads from the sheet are sequences of string cells, in
    column order: identifier, title, an unused column, price, image.  A row
    is a JavaScript array: it can be shorter than the range is wide, and
    [row[i]] past its end is [undefined]. *)
Definition Row : Type := list string.

Definition cell (row : Row) (i : nat) : value := JStr <$> row !! i.

Record Price : Type := mkPrice {
  currency : string;
  amount : value
}.

Record ProductRecord : Type := mkProduct {
  sku : value;
  title : value;
  description : string;
  price : Price;
  image_url : value;
  categoryIds : list Z
}.

Record SearchResult : Type := mkResult {
  total : nat;
  offset : JSNumber;
  limit : value;
  products : list ProductRecord
}.

(** What a promise of the loader is fulfilled with. *)
Inductive Outcome : Type :=
  | OResult (r : SearchResult)
  | ONull
  | OUndefined.

(** A settled promise. *)
Inductive Settled : Type :=
  | Fulfilled (o : Outcome)
  | Rejected (e : JSError).

(** The object literal the three branches build from a row. *)
Definition to_product (product : Row) : ProductRecord :=
  {| sku := cell product 0;
     title := cell product 1;
     description := "Description for product " +:+ template (cell product 1);
     price := {| currency := "USD"; amount := cell product 3 |};
     image_url := cell product 4;
     categoryIds := [1; 2] |}.

(** [rows.filter(p)] with a callback that may throw: the first throw ends
    the traversal. *)
Fixpoint filterM (p : Row -> Exc bool) (rows : list Row) : Exc (list Row) :=
  match rows with
  | [] => Return []
  | row :: rest =>
      bind (p row) (fun keep =>
      bind (filterM p rest) (fun kept =>
      Return (if keep then row :: kept else kept)))
  end.

(** [row[1].includes(params.search)]: the title cell must be there, and
    the search value is converted to a string. *)
Definition title_includes (search : JValue) (row : Row) : Exc bool :=
  match row !! 1%nat with
  | None => Throw TypeError
  | Some t =>
      if to_string_throws search then Throw TypeError
      else Return (str_includes t (to_string search))
  end.

(** [row[0] === key]. *)
Definition strict_eq (c key : value) : bool :=
  match c, key with
  | None, None => true
  | Some (JStr s), Some (JStr s') => String.eqb s s'
  | _, _ => false
  end.

(** [keys.includes(row[0])]: an array looks the cell up among its elements, a
    string looks for it as a substring, and nothing else has [includes]. *)
Definition includes (keys : value) (c : value) : Exc bool :=
  match keys with
  | Some (JArr elems) => Return (existsb (fun e => strict_eq c (Some e)) elems)
  | Some (JStr s) => Return (str_includes s (template c))
  | _ => Throw TypeError
  end.

(** [params.filter && (params.filter.sku || params.filter.url_key)] *)
Definition has_filter (filter : value) : Exc bool :=
  if truthy filter then
    bind (get filter "sku") (fun sku =>
    if truthy sku then Return true
    else bind (get filter "url_key") (fun url_key => Return (truthy url_key)))
  else Return false.

(** [(params.filter.sku && params.filter.sku.eq) ||
     (params.filter.url_key && params.filter.url_key.eq)] *)
Definition has_eq (filter : value) : Exc bool :=
  bind (get filter "sku") (fun sku =>
  bind (if truthy sku then bind (get sku "eq") (fun e => Return (truthy e))
        else Return false) (fun by_sku =>
  if by_sku then Return true
  else
    bind (get filter "url_key") (fun url_key =>
    if truthy url_key then bind (get url_key "eq") (fun e => Return (truthy e))
    else Return false))).

(** [params.filter.sku.in || params.filter.url_key.in] *)
Definition has_in (filter : value) : Exc bool :=
  bind (get filter "sku") (fun sku =>
  bind (get sku "in") (fun sku_in =>
  if truthy sku_in then Return true
  else
    bind (get filter "url_key") (fun url_key =>
    bind (get url_key "in") (fun url_key_in => Return (truthy url_key_in))))).

(** [params.filter.sku ? params.filter.sku.op : params.filter.url_key.op] *)
Definition operand (filter : value) (op : string) : Exc value :=
  bind (get filter "sku") (fun sku =>
  if truthy sku then get sku op
  else bind (get filter "url_key") (fun url_key => get url_key op)).

(** [params.currentPage * params.pageSize] *)
Definition page_offset (params : LoadKey) : Exc JSNumber :=
  js_mul (prop params "currentPage") (prop params "pageSize").

(** The branch under [if (params.search)]. *)
Definition search_branch (params : LoadKey) (search : JValue) (values : list Row)
  : Exc Outcome :=
  bind (filterM (title_includes search) values) (fun product =>
  bind (page_offset params) (fun off =>
  Return (OResult {| total := length product;
                     offset := off;
                     limit := prop params "pageSize";
                     products := map to_product product |}))).

(** The branch under [else if (params.filter && ...)], and the fall off
    the end of the function when no test holds. *)
Definition filter_branch (params : LoadKey) (values : list Row) : Exc Outcome :=
  let filter := prop params "filter" in
  bind (has_filter filter) (fun by_filter =>
  if by_filter then
    bind (has_eq filter) (fun by_eq =>
    if by_eq then
      bind (operand filter "eq") (fun key =>
      let found := find (fun row => strict_eq (cell row 0) key) values in
      bind (page_offset params) (fun off =>
      match found with
      | Some product =>
          Return (OResult {| total := 1;
                             offset := off;
                             limit := prop params "pageSize";
                             products := [to_product product] |})
      | None => Throw TypeError
      end))
    else
      bind (has_in filter) (fun by_in =>
      if by_in then
        bind (operand filter "in") (fun keys =>
        bind (filterM (fun row => includes keys (cell row 0)) values) (fun product =>
        bind (page_offset params) (fun off =>
        Return (OResult {| total := length product;
                           offset := off;
                           limit := prop params "pageSize";
                           products := map to_product product |}))))
      else Return OUndefined))
  else Return OUndefined).

(** The part of [__searchProducts] after the table has been read. *)
Definition search_rows (params : LoadKey) (values : list Row) : Exc Outcome :=
  match prop params "search" with
  | Some search =>
      if truthy (Some search) then search_branch params search values
      else filter_branch params values
  | None => filter_branch params values
  end.

(** *** The backend *)

Definition Credential : Type := string.

(** Modelled from the spec: the two operations of [services/googleSheet.js]
    (not among the sources), the acquisition of a token and the fetch of a
    range of a table, each of which returns or fails.  They are given by
    their replies: the [n]-th call of an operation gets its [n]-th reply. *)
Record Backend : Type := mkBackend {
  authReply : nat -> Exc Credential;
  sheetReply : nat -> value -> Credential -> string -> Exc (list Row)
}.

(** The calls made on the backend so far. *)
Record World : Type := mkWorld {
  tokenCalls : nat;
  fetchCalls : nat
}.

Definition getAuthToken (be : Backend) (w : World) : Exc Credential * World :=
  (authReply be (tokenCalls w),
   {| tokenCalls := S (tokenCalls w); fetchCalls := fetchCalls w |}).

Definition getSpreadSheetValues (be : Backend) (spreadsheetId : value)
    (auth : Credential) (spreadsheetRange : string) (w : World)
  : Exc (list Row) * World :=
  (sheetReply be (fetchCalls w) spreadsheetId auth spreadsheetRange,
   {| tokenCalls := tokenCalls w; fetchCalls := S (fetchCalls w) |}).

(** The promise of an [async] function: a return fulfils it, a throw
    rejects it. *)
Definition settle (r : Exc Outcome) : Settled :=
  match r with
  | Return o => Fulfilled o
  | Throw e => Rejected e
  end.

Definition __searchProducts (be : Backend) (params : LoadKey) (actionParameters : value)
    (w : World) : Settled * World :=
  match get actionParameters "SPREADSHEET" with
  | Throw e => (Rejected e, w)
  | Return spreadsheetId =>
      let spreadsheetRange := "weretail-internal!C2:G"%string in
      let '(auth, w1) := getAuthToken be w in
      match auth with
      | Throw e => (Rejected e, w1)
      | Return auth =>
          let '(response, w2) :=
            getSpreadSheetValues be spreadsheetId auth spreadsheetRange w1 in
          match response with
          | Throw e => (Rejected e, w2)
          | Return values => (settle (search_rows params values), w2)
          end
      end
  end.

(** [promise.catch(error => null)].  The handler logs the key and the error
    and returns [null]; writing the log message is taken not to throw. *)
Definition catch_null (p : Settled) : Settled :=
  match p with
  | Fulfilled o => Fulfilled o
  | Rejected _ => Fulfilled ONull
  end.

(** [keys.map(key => this.__searchProducts(key, actionParameters).catch(...))].
    The resolutions of the keys interleave at their [await]s: every key asks
    for its token before any key fetches the table.  Threading the world key
    by key keeps the number of calls of each operation and, with tokens that
    arrive in the order they were asked for, which call of an operation
    belongs to which key. *)
Fixpoint loadingFunction (be : Backend) (actionParameters : value)
    (keys : list LoadKey) (w : World) : list Settled * World :=
  match keys with
  | [] => ([], w)
  | key :: rest =>
      let '(p, w1) := __searchProducts be key actionParameters w in
      let '(ps, w2) := loadingFunction be actionParameters rest w1 in
      (catch_null p :: ps, w2)
  end.

Definition cacheKeyFunction (key : LoadKey) : string := JSON_stringify (JObj key).

End Resolver.

Import Resolver.

(** ** The loader *)

Module Loader.

(** Modelled from the spec: the batching and caching engine, which the class
    takes from the [dataloader] package (not among the sources).  A call of
    [load] computes the cache key of its key; a key whose cache key is
    already known shares the promise of the first request for it, and a new
    one gets a fresh promise, is entered in the cache and joins the batch.
    At the flush the resolver is called once with the keys of the batch, in
    the order they joined it, and the promise of the key at position [i] is
    resolved with the outcome at position [i].  Promises are numbered as
    they are created; [promises] holds what each has settled to, [None]
    while pending. *)
Record DataLoader : Type := mkLoader {
  cacheMap : gmap string nat;
  batch : list (LoadKey * nat);
  promises : list (option Settled)
}.

(** Modelled from the spec: a loader starts with an empty cache and no
    pending key. *)
Definition new_DataLoader : DataLoader :=
  {| cacheMap := ∅; batch := []; promises := [] |}.

Section Engine.
(** The two functions a loader is constructed with. *)
Variable batchLoadFn : list LoadKey -> World -> list Settled * World.
Variable cacheKeyFn : LoadKey -> string.

(** Modelled from the spec: [load] of the engine.  A cached key gets the
    promise in the cache; a new one gets a fresh promise, cached at once, and
    joins the batch. *)
Definition DataLoader_load (key : LoadKey) (dl : DataLoader) : nat * DataLoader :=
  let cacheKey := cacheKeyFn key in
  match cacheMap dl !! cacheKey with
  | Some promise => (promise, dl)
  | None =>
      let promise := length (promises dl) in
      (promise,
       {| cacheMap := <[cacheKey := promise]> (cacheMap dl);
          batch := batch dl ++ [(key, promise)];
          promises := promises dl ++ [None] |})
  end.

(** Modelled from the spec: each promise of the batch is resolved with the
    outcome at its position; the outcome is itself a promise, whose state it
    takes. *)
Fixpoint resolve_batch (entries : list (LoadKey * nat)) (values : list Settled)
    (ps : list (option Settled)) : list (option Settled) :=
  match entries, values with
  | (_, promise) :: entries', v :: values' =>
      resolve_batch entries' values' (<[promise := Some v]> ps)
  | _, _ => ps
  end.

(** Modelled from the spec: the flush of the pending batch, one call of the
    resolver with the keys of the batch; without pending keys there is
    nothing to do and the resolver is not called. *)
Definition DataLoader_dispatch (dl : DataLoader) (w : World) : DataLoader * World :=
  match batch dl with
  | [] => (dl, w)
  | entries =>
      let '(values, w') := batchLoadFn (map fst entries) w in
      ({| cacheMap := cacheMap dl;
          batch := [];
          promises := resolve_batch entries values (promises dl) |}, w')
  end.

(** Modelled from the spec: calls of [load] made one after the other in a
    tick, with the promise each returns. *)
Fixpoint DataLoader_load_all (keys : list LoadKey) (dl : DataLoader)
  : list nat * DataLoader :=
  match keys with
  | [] => ([], dl)
  | key :: rest =>
      let '(promise, dl1) := DataLoader_load key dl in
      let '(promises, dl2) := DataLoader_load_all rest dl1 in
      (promise :: promises, dl2)
  end.
End Engine.

(** The class of the source file.  Its constructor captures the action
    parameters and builds the loader from [loadingFunction] and
    [cacheKeyFunction]; [load] forwards to the loader. *)
Record ProductsLoader : Type := mkProductsLoader {
  backend : Backend;
  actionParameters : value;
  loader : DataLoader
}.

Definition constructor (be : Backend) (actionParameters : value) : ProductsLoader :=
  {| backend := be; actionParameters := actionParameters; loader := new_DataLoader |}.

Definition with_loader (this : ProductsLoader) (dl : DataLoader) : ProductsLoader :=
  {| backend := backend this; actionParameters := actionParameters this; loader := dl |}.

Definition load (key : LoadKey) (this : ProductsLoader) : nat * ProductsLoader :=
  let '(promise, dl) := DataLoader_load cacheKeyFunction key (loader this) in
  (promise, with_loader this dl).

(** The calls of [load] made before the flush, in the order they are made,
    with the promise each caller gets back. *)
Definition load_all (keys : list LoadKey) (this : ProductsLoader)
  : list nat * ProductsLoader :=
  let '(promises, dl) := DataLoader_load_all cacheKeyFunction keys (loader this) in
  (promises, with_loader this dl).

(** The keys the resolver is called with at the flush that follows the
    loads of [keys]. *)
Definition batch_keys (keys : list LoadKey) (this : ProductsLoader) : list LoadKey :=
  map fst (batch (loader (snd (load_all keys this)))).

Definition flush (this : ProductsLoader) (w : World) : ProductsLoader * World :=
  let '(dl, w') :=
    DataLoader_dispatch (loadingFunction (backend this) (actionParameters this))
      (loader this) w in
  (with_loader this dl, w').

(** What the promise [p] has settled to, if it has. *)
Definition settled (this : ProductsLoader) (p : nat) : option Settled :=
  mjoin (promises (loader this) !! p).

(** Modelled from the spec: one tick, the loads of [keys] and then the
    flush.  The result gives, for each call of [load] in order, what its
    promise settles to. *)
Definition tick (keys : list LoadKey) (this : ProductsLoader) (w : World)
  : list (option Settled) * ProductsLoader * World :=
  let '(ps, this1) := load_all keys this in
  let '(this2, w') := flush this1 w in
  (map (settled this2) ps, this2, w').

(** Earlier ticks of a loader, each with the keys loaded in it. *)
Fixpoint run_ticks (history : list (list LoadKey)) (this : ProductsLoader) (w : World)
  : ProductsLoader * World :=
  match history with
  | [] => (this, w)
  | keys :: later =>
      let '(_, this1, w1) := tick keys this w in
      run_ticks later this1 w1
  end.

End Loader.

Import Loader.

(** ** A sheet and keys to try the model on *)

Definition sheet : list Row :=
  [ ["S1"; "Shirt"; "apparel"; "19.99"; "img1"];
    ["S2"; "Shoe"; "footwear"; "49.99"; "img2"] ]%string.

(** A backend that always answers, with [sheet]. *)
Definition good_backend : Backend :=
  {| authReply := fun _ => Return "token"%string;
     sheetReply := fun _ _ _ _ => Return sheet |}.

(** A backend that refuses every token. *)
Definition refusing_backend : Backend :=
  {| authReply := fun _ => Throw (BackendError "unavailable");
     sheetReply := fun _ _ _ _ => Return sheet |}.

(** A backend that grants the tokens and fails to read the table. *)
Definition broken_sheet_backend : Backend :=
  {| authReply := fun _ => Return "token"%string;
     sheetReply := fun _ _ _ _ => Throw (BackendError "unavailable") |}.

Definition action_parameters : value :=
  Some (JObj [("SPREADSHEET"%string, JStr "sheet-1")]).

Definition w0 : World := {| tokenCalls := 0; fetchCalls := 0 |}.

Definition key_search : LoadKey :=
  [("search", JStr "Sh"); ("currentPage", JNum 0); ("pageSize", JNum 10)]%string.
Definition key_eq_S2 : LoadKey :=
  [("filter", JObj [("sku", JObj [("eq", JStr "S2")])]);
   ("currentPage", JNum 0); ("pageSize", JNum 10)]%string.
Definition key_eq_unknown : LoadKey :=
  [("filter", JObj [("sku", JObj [("eq", JStr "UNKNOWN")])]);
   ("currentPage", JNum 0); ("pageSize", JNum 10)]%string.
Definition key_in : LoadKey :=
  [("filter", JObj [("sku", JObj [("in", JArr [JStr "S2"; JStr "S1"])])]);
   ("currentPage", JNum 0); ("pageSize", JNum 5)]%string.
Definition key_url_key_in : LoadKey :=
  [("filter", JObj [("url_key", JObj [("in", JArr [JStr "S1"])])]);
   ("currentPage", JNum 0); ("pageSize", JNum 5)]%string.
Definition key_search_and_filter : LoadKey :=
  [("search", JStr "Sh");
   ("filter", JObj [("sku", JObj [("eq", JStr "S2")])]);
   ("currentPage", JNum 0); ("pageSize", JNum 10)]%string.
Definition key_search_reordered : LoadKey :=
  [("currentPage", JNum 0); ("pageSize", JNum 10); ("search", JStr "Sh")]%string.
Definition key_no_criteria : LoadKey :=
  [("currentPage", JNum 0); ("pageSize", JNum 10)]%string.


(** ** Expected results on the example sheet *)

Definition product_S1 : ProductRecord :=
  {| sku := Some (JStr "S1"); title := Some (JStr "Shirt");
     description := "Description for product Shirt";
     price := {| currency := "USD"; amount := Some (JStr "19.99") |};
     image_url := Some (JStr "img1"); categoryIds := [1; 2] |}.

Definition product_S2 : ProductRecord :=
  {| sku := Some (JStr "S2"); title := Some (JStr "Shoe");
     description := "Description for product Shoe";
     price := {| currency := "USD"; amount := Some (JStr "49.99") |};
     image_url := Some (JStr "img2"); categoryIds := [1; 2] |}.

Definition result_search : SearchResult :=
  {| total := 2; offset := Int 0; limit := Some (JNum 10);
     products := [product_S1; product_S2] |}.

Definition result_eq_S2 : SearchResult :=
  {| total := 1; offset := Int 0; limit := Some (JNum 10); products := [product_S2] |}.

Definition result_in : SearchResult :=
  {| total := 2; offset := Int 0; limit := Some (JNum 5);
     products := [product_S1; product_S2] |}.

(** ** Vocabulary of the properties *)

(** The range of the sheet that is read. *)
Definition spreadsheetRange : string := "weretail-internal!C2:G".

(** The [n]-th request for a token is granted. *)
Definition token_granted (be : Backend) (n : nat) : bool :=
  match authReply be n with
  | Return _ => true
  | Throw _ => false
  end.

(** The world in which the key at position [i] of a batch is resolved, and
    the promise its resolution gives before the [catch]. *)
Definition world_at (be : Backend) (ap : value) (keys : list LoadKey) (w : World)
    (i : nat) : World :=
  snd (loadingFunction be ap (take i keys) w).

Definition resolution (be : Backend) (ap : value) (keys : list LoadKey) (w : World)
    (i : nat) : option Settled :=
  (fun key => fst (__searchProducts be key ap (world_at be ap keys w i))) <$> keys !! i.

(** [s] occurs in [t]. *)
Definition occurs_in (s t : string) : Prop :=
  exists pre post : string, t = (pre +:+ s +:+ post)%string.

(** The title cell of the row contains [s]. *)
Definition title_matches (s : string) (row : Row) : bool :=
  match row !! 1%nat with
  | Some t => str_includes t s
  | None => false
  end.

(** The identifier cell of the row is [v]. *)
Definition has_id (v : string) (row : Row) : bool :=
  match row !! 0%nat with
  | Some c => String.eqb c v
  | None => false
  end.

(** The identifier cell of the row is one of [vs]. *)
Definition id_among (vs : list JValue) (row : Row) : bool :=
  existsb (fun e => strict_eq (cell row 0) (Some e)) vs.

Definition is_number (v : value) : bool :=
  match v with
  | Some (JNum _) => true
  | _ => false
  end.

(** The page numbers of the key are the integers [cp] and [ps], each at most
    [2^53] in absolute value, so that a double holds it exactly. *)
Record PageNumbers (params : LoadKey) (cp ps : Z) : Prop := mkPageNumbers {
  page_current : prop params "currentPage" = Some (JNum cp);
  page_size : prop params "pageSize" = Some (JNum ps);
  page_current_safe : Z.abs cp <= 2 ^ 53;
  page_size_safe : Z.abs ps <= 2 ^ 53
}.

(** Two keys with the same fields and the same values, in whatever order. *)
Definition fieldwise_equal (k1 k2 : LoadKey) : Prop :=
  forall name : string, prop k1 name = prop k2 name.


(** A key that asks for the record with identifier [v], by [filter.sku.eq]
    or, without a [sku] filter, by [filter.url_key.eq]. *)
Inductive ExactMatch (params : LoadKey) (v : string) : Prop :=
  | exact_by_sku (f o : list (string * JValue)) :
      prop params "filter" = Some (JObj f) ->
      lookup_prop "sku" f = Some (JObj o) ->
      lookup_prop "eq" o = Some (JStr v) ->
      ExactMatch params v
  | exact_by_url_key (f o : list (string * JValue)) :
      prop params "filter" = Some (JObj f) ->
      lookup_prop "sku" f = None ->
      lookup_prop "url_key" f = Some (JObj o) ->
      lookup_prop "eq" o = Some (JStr v) ->
      ExactMatch params v.

(** ** The loader's engine *)

(** What holds of a loader between any two of its operations: the pending
    keys are cached under their promise and pairwise distinct by cache key;
    the cache names existing promises, one cache key per promise; and a
    cached promise is pending in the batch or settled. *)
Record Inv (cacheKeyFn : LoadKey -> string) (dl : DataLoader) : Prop := mkInv {
  inv_batch_cached : forall key p,
    (key, p) ∈ batch dl -> cacheMap dl !! cacheKeyFn key = Some p;
  inv_batch_nodup : NoDup (map (fun e => cacheKeyFn (fst e)) (batch dl));
  inv_cache_bound : forall ck p,
    cacheMap dl !! ck = Some p -> (p < length (promises dl))%nat;
  inv_cache_inj : forall ck1 ck2 p,
    cacheMap dl !! ck1 = Some p -> cacheMap dl !! ck2 = Some p -> ck1 = ck2;
  inv_cache_live : forall ck p,
    cacheMap dl !! ck = Some p ->
    (exists key, (key, p) ∈ batch dl) \/ (exists s, promises dl !! p = Some (Some s))
}.

(** Every settled promise is fulfilled. *)
Definition AllFulfilled (dl : DataLoader) : Prop :=
  forall p s, promises dl !! p = Some (Some s) -> exists o, s = Fulfilled o.

(** ** The class *)

(** A loader between two ticks: the invariant of the engine holds, nothing
    is pending and every settled promise is fulfilled. *)
Definition Ready (this : ProductsLoader) : Prop :=
  Inv cacheKeyFunction (loader this)
  /\ batch (loader this) = []
  /\ AllFulfilled (loader this).

(** ** Reading a serialized value back *)

(** The characters a number is written with. *)
Definition numeric (c : ascii) : bool :=
  let n := N_of_ascii c in
  ((48 <=? n)%N && (n <=? 57)%N) || (n =? 45)%N.

(** What may follow a serialized value: nothing, or a character that cannot
    continue a number. *)
Definition stop (r : list ascii) : Prop :=
  match r with
  | [] => True
  | c :: _ => numeric c = false
  end.

(** The first character of a serialized value tells its kind. *)
Definition class (c : ascii) : nat :=
  let n := N_of_ascii c in
  if (n =? 110)%N then 0
  else if (n =? 116)%N || (n =? 102)%N then 1
  else if numeric c then 2
  else if (n =? 34)%N then 3
  else if (n =? 91)%N then 4
  else if (n =? 123)%N then 5
  else 6.

Definition kind (v : JValue) : nat :=
  match v with
  | JNull => 0
  | JBool _ => 1
  | JNum _ => 2
  | JStr _ => 3
  | JArr _ => 4
  | JObj _ => 5
  end%nat.

Fixpoint prefixb (l1 l2 : list ascii) : bool :=
  match l1, l2 with
  | [] , _ => true
  | a :: l1', b :: l2' => Ascii.eqb a b && prefixb l1' l2'
  | _ :: _, [] => false
  end.

Definition all_ascii : list ascii := map ascii_of_nat (seq 0 256).

(** No escape sequence is empty, starts with a quote or starts another one. *)
Definition escape_prefix_free : bool :=
  forallb (fun c1 =>
    match escape_char c1 with [] => false | a :: _ => negb (Ascii.eqb a "034") end
    && forallb (fun c2 => implb (prefixb (escape_char c1) (escape_char c2)) (Ascii.eqb c1 c2))
         all_ascii) all_ascii.

(** The continuation of a comma-separated list after its first part. *)
Definition rest_chars (parts : list (list ascii)) : list ascii :=
  match parts with
  | [] => []
  | _ :: _ => ","%char :: join_chars parts
  end.

(** [f x] can be read back when something that is not a number character
    follows it. *)
Definition readable {A : Type} (f : A -> list ascii) (x : A) : Prop :=
  forall (y : A) (r1 r2 : list ascii),
    stop r1 -> stop r2 -> f x ++ r1 = f y ++ r2 -> x = y /\ r1 = r2.


(** ** Further keys, sheets and key shapes *)

(** A key that asks for the records whose identifier is among [vs], by
    [filter.sku.in] alone. *)
Inductive MembershipBySku (params : LoadKey) (vs : list JValue) : Prop :=
  | membership_by_sku (f o : list (string * JValue)) :
      prop params "filter" = Some (JObj f) ->
      lookup_prop "sku" f = Some (JObj o) ->
      lookup_prop "url_key" f = None ->
      lookup_prop "eq" o = None ->
      lookup_prop "in" o = Some (JArr vs) ->
      MembershipBySku params vs.

(** A key whose [filter] names no lookup: there is no [filter], or it is an
    object with neither [sku] nor [url_key]. *)
Inductive NoCriteria (params : LoadKey) : Prop :=
  | no_filter :
      truthy (prop params "filter") = false -> NoCriteria params
  | no_sku_no_url_key (f : list (string * JValue)) :
      prop params "filter" = Some (JObj f) ->
      truthy (lookup_prop "sku" f) = false ->
      truthy (lookup_prop "url_key" f) = false ->
      NoCriteria params.

(** The record built from a row that has nothing but its identifier [v]. *)
Definition bare_product (v : string) : ProductRecord :=
  {| sku := Some (JStr v); title := None;
     description := "Description for product undefined";
     price := {| currency := "USD"; amount := None |};
     image_url := None; categoryIds := [1; 2] |}.

(** A sheet whose second row has lost its trailing empty cells. *)
Definition sheet_short : list Row :=
  [ ["S1"; "Shirt"; "apparel"; "19.99"; "img1"]; ["S9"] ]%string.

Definition short_backend : Backend :=
  {| authReply := fun _ => Return "token"%string;
     sheetReply := fun _ _ _ _ => Return sheet_short |}.

Definition key_eq_S9 : LoadKey :=
  [("filter", JObj [("sku", JObj [("eq", JStr "S9")])]);
   ("currentPage", JNum 0); ("pageSize", JNum 10)]%string.
Definition key_search_category : LoadKey :=
  [("search", JStr "Sh"); ("categoryId", JNum 7);
   ("currentPage", JNum 0); ("pageSize", JNum 10)]%string.
Definition key_in_and_url_key_eq : LoadKey :=
  [("filter", JObj [("sku", JObj [("in", JArr [JStr "S1"])]);
                    ("url_key", JObj [("eq", JStr "S2")])]);
   ("currentPage", JNum 0); ("pageSize", JNum 10)]%string.
Definition key_empty_filter : LoadKey :=
  [("filter", JObj []); ("currentPage", JNum 0); ("pageSize", JNum 10)]%string.

(** A sheet whose second row has an empty identifier cell, and the key that
    asks for the empty identifier. *)
Definition sheet_blank : list Row :=
  [ ["S1"; "Shirt"; "apparel"; "19.99"; "img1"];
    [""; "Sock"; "footwear"; "4.99"; "img3"] ]%string.

Definition blank_backend : Backend :=
  {| authReply := fun _ => Return "token"%string;
     sheetReply := fun _ _ _ _ => Return sheet_blank |}.

Definition key_eq_blank : LoadKey :=
  [("filter", JObj [("sku", JObj [("eq", JStr "")])]);
   ("currentPage", JNum 0); ("pageSize", JNum 10)]%string.

(** * Proofs *)

(** ** [JSON.stringify] can be read back *)

Example stringify_key :
  JSON_stringify (JObj [("search", JStr "Sh"); ("currentPage", JNum 0); ("pageSize", JNum 10)])
  = ("{" +:+ dq +:+ "search" +:+ dq +:+ ":" +:+ dq +:+ "Sh" +:+ dq +:+ ","
       +:+ dq +:+ "currentPage" +:+ dq +:+ ":0,"
       +:+ dq +:+ "pageSize" +:+ dq +:+ ":10}")%string.
Proof. reflexivity. Qed.

Section StringifyInjective.

Lemma In_all_ascii (c : ascii) : In c all_ascii.
Proof.
  unfold all_ascii. apply in_map_iff. exists (nat_of_ascii c). split.
  - apply ascii_nat_embedding.
  - apply in_seq. pose proof (nat_ascii_bounded c). lia.
Qed.

Lemma escape_prefix_free_true : escape_prefix_free = true.
Proof. vm_compute. reflexivity. Qed.

Lemma escape_head_not_quote (c : ascii) (l r : list ascii) :
  escape_char c ++ l <> "034"%char :: r.
Proof.
  pose proof escape_prefix_free_true as H. unfold escape_prefix_free in H.
  rewrite forallb_forall in H. specialize (H c (In_all_ascii c)).
  apply andb_prop in H as [H _].
  intros E. destruct (escape_char c) as [|a t]; [discriminate H|].
  simpl in E. injection E as -> _. simpl in H. discriminate H.
Qed.

Lemma prefixb_app (l1 l2 x y : list ascii) :
  l1 ++ x = l2 ++ y -> prefixb l1 l2 = true \/ prefixb l2 l1 = true.
Proof.
  revert l2. induction l1 as [|a l1 IH]; intros [|b l2] E; simpl; auto.
  simpl in E. injection E as -> E. rewrite Ascii.eqb_refl. simpl. apply IH, E.
Qed.

Lemma escape_char_code (c1 c2 : ascii) :
  prefixb (escape_char c1) (escape_char c2) = true -> c1 = c2.
Proof.
  pose proof escape_prefix_free_true as H. unfold escape_prefix_free in H.
  rewrite forallb_forall in H. specialize (H c1 (In_all_ascii c1)).
  apply andb_prop in H as [_ H]. rewrite forallb_forall in H.
  specialize (H c2 (In_all_ascii c2)). intros P. rewrite P in H. simpl in H.
  apply Ascii.eqb_eq, H.
Qed.

Lemma escape_char_inj_app (c1 c2 : ascii) (x y : list ascii) :
  escape_char c1 ++ x = escape_char c2 ++ y -> c1 = c2 /\ x = y.
Proof.
  intros E. assert (c1 = c2) as ->.
  { destruct (prefixb_app _ _ _ _ E) as [P|P]; apply escape_char_code in P; congruence. }
  split; [reflexivity|]. eapply app_inv_head, E.
Qed.

Lemma escaped_inj_app (cs1 cs2 r1 r2 : list ascii) :
  flat_map escape_char cs1 ++ "034"%char :: r1 = flat_map escape_char cs2 ++ "034"%char :: r2 ->
  cs1 = cs2 /\ r1 = r2.
Proof.
  revert cs2. induction cs1 as [|c1 cs1 IH]; intros [|c2 cs2] E; simpl in E.
  - injection E as ->. auto.
  - rewrite <- app_assoc in E. symmetry in E. now apply escape_head_not_quote in E.
  - rewrite <- app_assoc in E. now apply escape_head_not_quote in E.
  - rewrite <- !app_assoc in E. apply escape_char_inj_app in E as [-> E].
    apply IH in E as [-> ->]. auto.
Qed.

Lemma chars_inj (s1 s2 : string) : chars s1 = chars s2 -> s1 = s2.
Proof.
  unfold chars. intros E.
  rewrite <- (string_of_list_ascii_of_string s1), <- (string_of_list_ascii_of_string s2).
  now rewrite E.
Qed.

Lemma quote_chars_inj_app (s1 s2 : string) (r1 r2 : list ascii) :
  quote_chars s1 ++ r1 = quote_chars s2 ++ r2 -> s1 = s2 /\ r1 = r2.
Proof.
  unfold quote_chars. simpl. intros E. injection E as E.
  rewrite <- !app_assoc in E. simpl in E.
  apply escaped_inj_app in E as [E ->]. split; [now apply chars_inj|reflexivity].
Qed.

Lemma digits_numeric (d : Decimal.uint) :
  Forall (fun c => numeric c = true) (digits_of_uint d).
Proof. induction d; simpl; constructor; auto. Qed.

Lemma digits_of_uint_inj (d1 d2 : Decimal.uint) :
  digits_of_uint d1 = digits_of_uint d2 -> d1 = d2.
Proof.
  revert d2. induction d1; intros [] E; simpl in E; try discriminate E;
    try reflexivity; injection E as E; f_equal; auto.
Qed.

Lemma digits_head (d : Decimal.uint) :
  d <> Decimal.Nil ->
  exists c rest, digits_of_uint d = c :: rest /\ class c = 2%nat.
Proof. destruct d; intros H; [congruence| ..]; simpl; eauto. Qed.

Lemma number_chars_numeric (n : Z) :
  Forall (fun c => numeric c = true) (number_chars n).
Proof.
  unfold number_chars. destruct (Z.to_int n); [|constructor; [reflexivity|]];
    apply digits_numeric.
Qed.

Lemma number_chars_head (n : Z) :
  exists c rest, number_chars n = c :: rest /\ class c = 2%nat.
Proof.
  unfold number_chars. destruct n as [|p|p]; simpl.
  - eauto.
  - apply digits_head, DecimalPos.Unsigned.to_uint_nonnil.
  - eauto.
Qed.

Lemma number_chars_inj (n m : Z) : number_chars n = number_chars m -> n = m.
Proof.
  unfold number_chars. intros E. apply DecimalZ.to_int_inj.
  destruct (Z.to_int n) as [d|d], (Z.to_int m) as [d'|d'].
  - f_equal. now apply digits_of_uint_inj.
  - destruct d; discriminate E.
  - destruct d'; discriminate E.
  - injection E as E. f_equal. now apply digits_of_uint_inj.
Qed.

(** Two runs of number characters, each followed by something that is not
    one, split at the same place. *)
Lemma numeric_run_inj (l1 l2 r1 r2 : list ascii) :
  Forall (fun c => numeric c = true) l1 ->
  Forall (fun c => numeric c = true) l2 ->
  stop r1 -> stop r2 ->
  l1 ++ r1 = l2 ++ r2 -> l1 = l2 /\ r1 = r2.
Proof.
  intros F1. revert l2. induction F1 as [|a l1 Ha F1 IH]; intros l2 F2 S1 S2 E.
  - destruct F2 as [|b l2 Hb F2]; [auto|].
    simpl in E. subst r1. simpl in S1. congruence.
  - destruct F2 as [|b l2 Hb F2].
    + simpl in E. subst r2. simpl in S2. congruence.
    + simpl in E. injection E as -> E. destruct (IH l2 F2 S1 S2 E) as [-> ->]. auto.
Qed.

Lemma stringify_head (v : JValue) :
  exists c rest, stringify_chars v = c :: rest /\ class c = kind v.
Proof.
  destruct v as [|[]|n|s|elems|props]; simpl; eauto.
  apply number_chars_head.
Qed.

Lemma join_chars_cons (p : list ascii) (parts : list (list ascii)) :
  join_chars (p :: parts) = p ++ rest_chars parts.
Proof. destruct parts; simpl; [now rewrite app_nil_r|reflexivity]. Qed.

Lemma rest_chars_cons (p : list ascii) (parts : list (list ascii)) :
  rest_chars (p :: parts) = ","%char :: p ++ rest_chars parts.
Proof. unfold rest_chars at 1. now rewrite join_chars_cons. Qed.

Lemma stop_rest (parts : list (list ascii)) (close : ascii) (r : list ascii) :
  numeric close = false -> stop (rest_chars parts ++ close :: r).
Proof. intros H. destruct parts; simpl; auto. Qed.

Section Separated.
Context {A : Type} (f : A -> list ascii) (close : ascii).
Hypothesis close_not_numeric : numeric close = false.
Hypothesis close_not_comma : close <> ","%char.
Hypothesis head_not_close : forall (x : A) (l r : list ascii), f x ++ l <> close :: r.

Lemma rest_chars_inj (l1 l2 : list A) (r1 r2 : list ascii) :
  Forall (readable f) l1 ->
  rest_chars (map f l1) ++ close :: r1 = rest_chars (map f l2) ++ close :: r2 ->
  l1 = l2 /\ r1 = r2.
Proof.
  intros F. revert l2. induction F as [|x l1 Hx F IH]; intros [|y l2] E.
  - simpl in E. injection E as ->. auto.
  - rewrite map_cons, rest_chars_cons in E. simpl in E. injection E as E _. contradiction.
  - rewrite map_cons, rest_chars_cons in E. simpl in E. injection E as E _.
    symmetry in E. contradiction.
  - rewrite !map_cons, !rest_chars_cons in E. simpl in E. injection E as E.
    rewrite <- !app_assoc in E.
    apply Hx in E as [-> E]; try (apply stop_rest; assumption).
    apply IH in E as [-> ->]. auto.
Qed.

Lemma join_chars_inj (l1 l2 : list A) (r1 r2 : list ascii) :
  Forall (readable f) l1 ->
  join_chars (map f l1) ++ close :: r1 = join_chars (map f l2) ++ close :: r2 ->
  l1 = l2 /\ r1 = r2.
Proof.
  intros F. destruct F as [|x l1 Hx F]; destruct l2 as [|y l2]; intros E.
  - simpl in E. injection E as ->. auto.
  - rewrite map_cons, join_chars_cons in E. simpl in E. rewrite <- app_assoc in E.
    symmetry in E. now apply head_not_close in E.
  - rewrite map_cons, join_chars_cons in E. simpl in E. rewrite <- app_assoc in E.
    now apply head_not_close in E.
  - rewrite !map_cons, !join_chars_cons in E. rewrite <- !app_assoc in E.
    apply Hx in E as [-> E]; try (apply stop_rest; assumption).
    apply rest_chars_inj in E as [-> ->]; auto.
Qed.
End Separated.

Lemma stringify_head_class (v : JValue) (l r : list ascii) (c : ascii) :
  (class c > 5)%nat -> stringify_chars v ++ l <> c :: r.
Proof.
  intros Hc E. destruct (stringify_head v) as (c' & rest & Hv & Hk).
  rewrite Hv in E. simpl in E. injection E as -> _.
  rewrite Hk in Hc. destruct v; simpl in Hc; lia.
Qed.

Lemma stringify_kind (v1 v2 : JValue) (r1 r2 : list ascii) :
  stringify_chars v1 ++ r1 = stringify_chars v2 ++ r2 -> kind v1 = kind v2.
Proof.
  intros E.
  destruct (stringify_head v1) as (c1 & t1 & H1 & K1).
  destruct (stringify_head v2) as (c2 & t2 & H2 & K2).
  rewrite H1, H2 in E. simpl in E. injection E as -> _. congruence.
Qed.

Lemma stringify_chars_inj_app (v1 : JValue) :
  forall (v2 : JValue) (r1 r2 : list ascii),
    stop r1 -> stop r2 ->
    stringify_chars v1 ++ r1 = stringify_chars v2 ++ r2 -> v1 = v2 /\ r1 = r2.
Proof.
  induction v1 as [|b1|n1|s1|elems1 IH|props1 IH] using JValue_nested_ind;
    intros v2 r1 r2 S1 S2 E.
  all: pose proof (stringify_kind _ _ _ _ E) as K.
  all: destruct v2 as [|b2|n2|s2|elems2|props2]; try discriminate K; clear K.
  - simpl in E. injection E as ->. auto.
  - destruct b1, b2; simpl in E; try discriminate E; injection E as ->; auto.
  - simpl in E.
    apply numeric_run_inj in E as [E ->]; auto using number_chars_numeric.
    apply number_chars_inj in E as ->. auto.
  - simpl in E. change (quote_chars s1 ++ r1 = quote_chars s2 ++ r2) in E.
    apply quote_chars_inj_app in E as [-> ->]. auto.
  - simpl in E. injection E as E. rewrite <- !app_assoc in E. simpl in E.
    apply (join_chars_inj stringify_chars "]"%char) in E as [-> ->]; auto.
    intros x l r. apply stringify_head_class. vm_compute. lia.
  - simpl in E. injection E as E. rewrite <- !app_assoc in E. simpl in E.
    apply (join_chars_inj
             (fun kv => quote_chars (fst kv) ++ ":"%char :: stringify_chars (snd kv))
             "}"%char) in E as [-> ->]; auto.
    eapply Forall_impl; [exact IH|]. intros [k1 x1] Hx [k2 x2] q1 q2 Q1 Q2 Eq.
    cbn [fst snd] in *. rewrite <- !app_assoc in Eq.
    apply quote_chars_inj_app in Eq as [-> Eq]. injection Eq as Eq.
    apply Hx in Eq as [-> ->]; auto.
Qed.

Lemma JSON_stringify_inj (v1 v2 : JValue) :
  JSON_stringify v1 = JSON_stringify v2 -> v1 = v2.
Proof.
  unfold JSON_stringify. intros E.
  assert (E' : stringify_chars v1 = stringify_chars v2).
  { rewrite <- (list_ascii_of_string_of_list_ascii (stringify_chars v1)),
      <- (list_ascii_of_string_of_list_ascii (stringify_chars v2)). now rewrite E. }
  destruct (stringify_chars_inj_app v1 v2 [] []) as [H _]; simpl; auto.
  now rewrite !app_nil_r.
Qed.

End StringifyInjective.

(** ** The resolver *)

Section ResolverFacts.

Lemma filterM_total (p : Row -> Exc bool) (q : Row -> bool) (rows : list Row) :
  Forall (fun row => p row = Return (q row)) rows ->
  filterM p rows = Return (List.filter q rows).
Proof.
  induction 1 as [|row rows Hrow _ IH]; simpl; [reflexivity|].
  rewrite Hrow, IH. simpl. reflexivity.
Qed.

Lemma filterM_elem (p : Row -> Exc bool) (rows kept : list Row) :
  filterM p rows = Return kept -> forall row, row ∈ kept -> row ∈ rows.
Proof.
  revert kept. induction rows as [|r rows IH]; simpl; intros kept E row Hin.
  - injection E as <-. exact Hin.
  - destruct (p r) as [keep|]; simpl in E; [|discriminate E].
    destruct (filterM p rows) as [kept'|]; simpl in E; [|discriminate E].
    injection E as <-. destruct keep.
    + apply elem_of_cons in Hin as [->|Hin]; [left|right; eauto].
    + right. eauto.
Qed.

Lemma prefix_spec (s t : string) :
  String.prefix s t = true <-> exists post : string, t = (s +:+ post)%string.
Proof.
  revert t. induction s as [|a s IH]; intros t; simpl.
  - destruct t; split; eauto.
  - destruct t as [|b t]; simpl.
    + split; [discriminate|]. intros [post E]. discriminate E.
    + destruct (ascii_dec a b) as [->|Hne].
      * rewrite IH. split; intros [post E]; exists post; [now rewrite E|].
        now injection E.
      * split; [discriminate|]. intros [post E]. injection E as -> _. contradiction.
Qed.

Lemma str_includes_spec (t s : string) : str_includes t s = true <-> occurs_in s t.
Proof.
  unfold occurs_in. induction t as [|a t IH]; cbn [str_includes].
  - rewrite orb_false_r, prefix_spec. split.
    + intros [post E]. exists ""%string, post. exact E.
    + intros (pre & post & E). destruct pre; [eauto|discriminate E].
  - rewrite orb_true_iff, IH, prefix_spec. split.
    + intros [[post E]|(pre & post & E)].
      * exists ""%string, post. exact E.
      * exists (String a pre), post. simpl. now rewrite E.
    + intros (pre & post & E). destruct pre as [|b pre].
      * left. eauto.
      * right. simpl in E. injection E as _ E. eauto.
Qed.

Lemma searchProducts_fetched (be : Backend) (params : LoadKey) (ap : value) (w : World)
    (id : value) (tok : Credential) (rows : list Row) :
  get ap "SPREADSHEET" = Return id ->
  authReply be (tokenCalls w) = Return tok ->
  sheetReply be (fetchCalls w) id tok spreadsheetRange = Return rows ->
  fst (__searchProducts be params ap w) = settle (search_rows params rows).
Proof.
  intros Hid Htok Hrows. unfold __searchProducts, getAuthToken, getSpreadSheetValues.
  rewrite Hid, Htok. simpl. fold spreadsheetRange. rewrite Hrows. reflexivity.
Qed.

Lemma searchProducts_ext (be : Backend) (p p' : LoadKey) (ap : value) (w : World) :
  (forall rows, search_rows p rows = search_rows p' rows) ->
  __searchProducts be p ap w = __searchProducts be p' ap w.
Proof.
  intros E. unfold __searchProducts.
  destruct (get ap "SPREADSHEET"); [|reflexivity].
  destruct (getAuthToken be w) as [[auth|] w1]; [|reflexivity].
  destruct (getSpreadSheetValues _ _ _ _ _) as [[values|] w2]; [|reflexivity].
  now rewrite E.
Qed.

(** The calls one resolution makes do not depend on the key. *)
Lemma searchProducts_world (be : Backend) (params : LoadKey) (ap : value) (w : World) :
  snd (__searchProducts be params ap w) =
  match get ap "SPREADSHEET" with
  | Throw _ => w
  | Return _ =>
      {| tokenCalls := S (tokenCalls w);
         fetchCalls := if token_granted be (tokenCalls w) then S (fetchCalls w)
                       else fetchCalls w |}
  end.
Proof.
  unfold __searchProducts, token_granted, getAuthToken, getSpreadSheetValues.
  destruct (get ap "SPREADSHEET"); [|reflexivity].
  destruct (authReply be (tokenCalls w)); simpl; [|reflexivity].
  destruct (sheetReply be _ _ _ _); reflexivity.
Qed.

Lemma loadingFunction_cons (be : Backend) (ap : value) (key : LoadKey)
    (rest : list LoadKey) (w : World) :
  loadingFunction be ap (key :: rest) w =
  (catch_null (fst (__searchProducts be key ap w))
     :: fst (loadingFunction be ap rest (snd (__searchProducts be key ap w))),
   snd (loadingFunction be ap rest (snd (__searchProducts be key ap w)))).
Proof.
  simpl. destruct (__searchProducts be key ap w) as [p w1]. simpl.
  destruct (loadingFunction be ap rest w1). reflexivity.
Qed.

Lemma loadingFunction_length (be : Backend) (ap : value) (keys : list LoadKey) (w : World) :
  length (fst (loadingFunction be ap keys w)) = length keys.
Proof.
  revert w. induction keys as [|key rest IH]; intros w; [reflexivity|].
  rewrite loadingFunction_cons. simpl. now rewrite IH.
Qed.

Lemma loadingFunction_token_calls (be : Backend) (ap id : value) (keys : list LoadKey)
    (w : World) :
  get ap "SPREADSHEET" = Return id ->
  tokenCalls (snd (loadingFunction be ap keys w)) = (tokenCalls w + length keys)%nat.
Proof.
  intros Hid. revert w. induction keys as [|key rest IH]; intros w.
  - simpl. lia.
  - rewrite loadingFunction_cons. simpl. rewrite IH, searchProducts_world, Hid. simpl. lia.
Qed.

Lemma loadingFunction_fetch_calls (be : Backend) (ap id : value) (keys : list LoadKey)
    (w : World) :
  get ap "SPREADSHEET" = Return id ->
  fetchCalls (snd (loadingFunction be ap keys w)) =
  (fetchCalls w
   + length (List.filter (token_granted be) (seq (tokenCalls w) (length keys))))%nat.
Proof.
  intros Hid. revert w. induction keys as [|key rest IH]; intros w.
  - simpl. lia.
  - rewrite loadingFunction_cons. simpl. rewrite IH, searchProducts_world, Hid. simpl.
    destruct (token_granted be (tokenCalls w)); simpl; lia.
Qed.

Lemma loadingFunction_lookup (be : Backend) (ap : value) (keys : list LoadKey)
    (w : World) (i : nat) :
  fst (loadingFunction be ap keys w) !! i = catch_null <$> resolution be ap keys w i.
Proof.
  unfold resolution, world_at. revert w i.
  induction keys as [|key rest IH]; intros w i; [now destruct i|].
  rewrite loadingFunction_cons. destruct i as [|i]; simpl; [reflexivity|].
  rewrite IH. destruct (__searchProducts be key ap w) as [p w1]. simpl.
  now destruct (loadingFunction be ap (take i rest) w1) as [ps w2].
Qed.

Lemma loadingFunction_fulfilled (be : Backend) (ap : value) (keys : list LoadKey)
    (w : World) :
  Forall (fun p => exists o, p = Fulfilled o) (fst (loadingFunction be ap keys w)).
Proof.
  revert w. induction keys as [|key rest IH]; intros w; [constructor|].
  rewrite loadingFunction_cons. simpl. constructor; [|apply IH].
  destruct (fst (__searchProducts be key ap w)); simpl; eauto.
Qed.

End ResolverFacts.

(** ** The loader's engine *)

Section EngineFacts.
Variable cacheKeyFn : LoadKey -> string.

Lemma Inv_new : Inv cacheKeyFn new_DataLoader.
Proof.
  split; simpl; try (intros; simplify_map_eq; fail).
  - intros key p H. inversion H.
  - constructor.
Qed.

Lemma load_cached (key : LoadKey) (dl : DataLoader) (p : nat) :
  cacheMap dl !! cacheKeyFn key = Some p ->
  DataLoader_load cacheKeyFn key dl = (p, dl).
Proof. intros H. unfold DataLoader_load. now rewrite H. Qed.

Lemma load_fresh (key : LoadKey) (dl : DataLoader) :
  cacheMap dl !! cacheKeyFn key = None ->
  DataLoader_load cacheKeyFn key dl =
  (length (promises dl),
   {| cacheMap := <[cacheKeyFn key := length (promises dl)]> (cacheMap dl);
      batch := batch dl ++ [(key, length (promises dl))];
      promises := promises dl ++ [None] |}).
Proof. intros H. unfold DataLoader_load. now rewrite H. Qed.

(** The two cases of a load: the key is cached ([Hc] says under which
    promise), or it is new. *)
Ltac case_load key dl :=
  let Hc := fresh "Hc" in
  destruct (cacheMap dl !! cacheKeyFn key) as [?|] eqn:Hc;
  [rewrite (load_cached key dl _ Hc) | rewrite (load_fresh key dl Hc)].

Lemma Inv_load (key : LoadKey) (dl : DataLoader) :
  Inv cacheKeyFn dl -> Inv cacheKeyFn (snd (DataLoader_load cacheKeyFn key dl)).
Proof.
  intros [Hbc Hnd Hbd Hinj Hlive]. case_load key dl; [now split|].
  split; simpl.
  - intros key' p' [Hin|Hin]%elem_of_app.
    + pose proof (Hbc _ _ Hin) as Hc'.
      rewrite lookup_insert_ne; [exact Hc'|]. intros E. rewrite E in Hc. congruence.
    + apply list_elem_of_singleton in Hin. injection Hin as -> ->.
      apply lookup_insert_eq.
  - rewrite map_app. simpl. apply NoDup_app. split; [exact Hnd|]. split.
    + intros ck Hck E%list_elem_of_singleton. subst ck.
      apply list_elem_of_fmap in Hck as ([key' p'] & E & Hin). simpl in E.
      apply Hbc in Hin. rewrite <- E in Hin. congruence.
    + apply NoDup_singleton.
  - intros ck p. rewrite length_app. simpl. rewrite lookup_insert.
    case_decide; intros Hl; [injection Hl as <-; lia|]. apply Hbd in Hl. lia.
  - intros ck1 ck2 p. rewrite !lookup_insert.
    repeat case_decide; intros H1 H2; subst; try congruence.
    + injection H1 as <-. apply Hbd in H2. lia.
    + injection H2 as <-. apply Hbd in H1. lia.
    + eauto.
  - intros ck p. rewrite lookup_insert. case_decide; intros Hl.
    + injection Hl as <-. left. exists key. apply elem_of_app. right. left.
    + destruct (Hlive _ _ Hl) as [[key' Hin]|[s Hs]].
      * left. exists key'. apply elem_of_app. now left.
      * right. exists s. rewrite lookup_app_l; [exact Hs|]. eapply lookup_lt_Some, Hs.
Qed.

Lemma load_cache_mono (key : LoadKey) (dl : DataLoader) (ck : string) (p : nat) :
  cacheMap dl !! ck = Some p ->
  cacheMap (snd (DataLoader_load cacheKeyFn key dl)) !! ck = Some p.
Proof.
  intros H. case_load key dl; [exact H|].
  simpl. rewrite lookup_insert_ne; [exact H|]. intros E. rewrite E in Hc. congruence.
Qed.

Lemma load_returns_cached (key : LoadKey) (dl : DataLoader) :
  cacheMap (snd (DataLoader_load cacheKeyFn key dl)) !! cacheKeyFn key
  = Some (fst (DataLoader_load cacheKeyFn key dl)).
Proof.
  case_load key dl; [exact Hc|]. simpl. apply lookup_insert_eq.
Qed.



Lemma load_all_cons (key : LoadKey) (rest : list LoadKey) (dl : DataLoader) :
  DataLoader_load_all cacheKeyFn (key :: rest) dl =
  (fst (DataLoader_load cacheKeyFn key dl)
     :: fst (DataLoader_load_all cacheKeyFn rest (snd (DataLoader_load cacheKeyFn key dl))),
   snd (DataLoader_load_all cacheKeyFn rest (snd (DataLoader_load cacheKeyFn key dl)))).
Proof.
  simpl. destruct (DataLoader_load cacheKeyFn key dl) as [p dl1]. simpl.
  now destruct (DataLoader_load_all cacheKeyFn rest dl1).
Qed.

Lemma Inv_load_all (keys : list LoadKey) (dl : DataLoader) :
  Inv cacheKeyFn dl -> Inv cacheKeyFn (snd (DataLoader_load_all cacheKeyFn keys dl)).
Proof.
  revert dl. induction keys as [|key rest IH]; intros dl H; [exact H|].
  rewrite load_all_cons. simpl. apply IH, Inv_load, H.
Qed.

Lemma load_all_cache_mono (keys : list LoadKey) (dl : DataLoader) (ck : string) (p : nat) :
  cacheMap dl !! ck = Some p ->
  cacheMap (snd (DataLoader_load_all cacheKeyFn keys dl)) !! ck = Some p.
Proof.
  revert dl. induction keys as [|key rest IH]; intros dl H; [exact H|].
  rewrite load_all_cons. simpl. apply IH, load_cache_mono, H.
Qed.


Lemma load_all_length (keys : list LoadKey) (dl : DataLoader) :
  length (fst (DataLoader_load_all cacheKeyFn keys dl)) = length keys.
Proof.
  revert dl. induction keys as [|key rest IH]; intros dl; [reflexivity|].
  rewrite load_all_cons. simpl. now rewrite IH.
Qed.

(** The promise a caller gets is the one the cache holds for its key. *)
Lemma load_all_lookup (keys : list LoadKey) (dl : DataLoader) (i : nat) (k : LoadKey) :
  keys !! i = Some k ->
  exists p, fst (DataLoader_load_all cacheKeyFn keys dl) !! i = Some p
            /\ cacheMap (snd (DataLoader_load_all cacheKeyFn keys dl)) !! cacheKeyFn k
               = Some p.
Proof.
  revert dl i. induction keys as [|key rest IH]; intros dl i Hi; [now destruct i|].
  rewrite load_all_cons. destruct i as [|i]; simpl in *.
  - injection Hi as ->. eexists. split; [reflexivity|].
    apply load_all_cache_mono, load_returns_cached.
  - apply IH, Hi.
Qed.


(** *** The flush *)

Lemma resolve_batch_length (es : list (LoadKey * nat)) (vs : list Settled)
    (ps : list (option Settled)) :
  length (resolve_batch es vs ps) = length ps.
Proof.
  revert vs ps. induction es as [|[k p] es IH]; intros [|v vs] ps; simpl; try reflexivity.
  now rewrite IH, length_insert.
Qed.

Lemma resolve_batch_settled (es : list (LoadKey * nat)) (vs : list Settled)
    (ps : list (option Settled)) (p : nat) (s : Settled) :
  ps !! p = Some (Some s) -> exists s', resolve_batch es vs ps !! p = Some (Some s').
Proof.
  revert vs ps s. induction es as [|[k q] es IH]; intros [|v vs] ps s H; simpl; eauto.
  destruct (decide (q = p)) as [->|Hne].
  - eapply IH. apply list_lookup_insert_eq. eapply lookup_lt_Some, H.
  - eapply IH. rewrite list_lookup_insert_ne; eauto.
Qed.

Lemma resolve_batch_other (es : list (LoadKey * nat)) (vs : list Settled)
    (ps : list (option Settled)) (p : nat) :
  p ∉ map snd es -> resolve_batch es vs ps !! p = ps !! p.
Proof.
  revert vs ps. induction es as [|[k q] es IH]; intros [|v vs] ps H; simpl; try reflexivity.
  simpl in H. apply not_elem_of_cons in H as [Hne H].
  rewrite IH; [|exact H]. now apply list_lookup_insert_ne.
Qed.

(** The promise at position [j] of the batch gets the outcome at
    position [j]. *)
Lemma resolve_batch_lookup (es : list (LoadKey * nat)) (vs : list Settled)
    (ps : list (option Settled)) (j : nat) (k : LoadKey) (p : nat) (v : Settled) :
  NoDup (map snd es) ->
  (p < length ps)%nat ->
  es !! j = Some (k, p) -> vs !! j = Some v ->
  resolve_batch es vs ps !! p = Some (Some v).
Proof.
  revert vs ps j. induction es as [|[k' q] es IH]; intros vs ps j Hnd Hlt He Hv.
  - now destruct j.
  - destruct vs as [|v' vs]; [now destruct j|].
    simpl in Hnd. apply NoDup_cons in Hnd as [Hq Hnd]. destruct j as [|j]; simpl in *.
    + injection He as -> ->. injection Hv as ->.
      rewrite resolve_batch_other; [|exact Hq]. now apply list_lookup_insert_eq.
    + eapply IH; eauto. now rewrite length_insert.
Qed.

Lemma Inv_promises_nodup (dl : DataLoader) :
  Inv cacheKeyFn dl -> NoDup (map snd (batch dl)).
Proof.
  intros [Hbc Hnd _ Hinj _]. revert Hbc Hnd.
  induction (batch dl) as [|[k p] es IH]; intros Hbc Hnd; simpl; [constructor|].
  simpl in Hnd. apply NoDup_cons in Hnd as [Hk Hnd]. apply NoDup_cons. split.
  - intros Hin. apply list_elem_of_fmap in Hin as ([k' p'] & E & Hin). simpl in E. subst p'.
    apply Hk. apply list_elem_of_fmap. exists (k', p). split; [|exact Hin]. simpl.
    eapply Hinj; apply Hbc; [left|right; exact Hin].
  - apply IH; [|exact Hnd]. intros key q Hin. apply Hbc. now right.
Qed.

Section Dispatch.
Variable batchLoadFn : list LoadKey -> World -> list Settled * World.
Hypothesis batchLoadFn_length :
  forall keys w, length (fst (batchLoadFn keys w)) = length keys.

Lemma dispatch_batch (dl : DataLoader) (w : World) :
  batch (fst (DataLoader_dispatch batchLoadFn dl w)) = [].
Proof.
  unfold DataLoader_dispatch. destruct (batch dl) as [|e es] eqn:E; [exact E|].
  now destruct (batchLoadFn _ w).
Qed.

Lemma dispatch_cache (dl : DataLoader) (w : World) :
  cacheMap (fst (DataLoader_dispatch batchLoadFn dl w)) = cacheMap dl.
Proof.
  unfold DataLoader_dispatch. destruct (batch dl) as [|e es]; [reflexivity|].
  now destruct (batchLoadFn _ w).
Qed.

Lemma dispatch_promises (dl : DataLoader) (w : World) :
  promises (fst (DataLoader_dispatch batchLoadFn dl w)) =
  resolve_batch (batch dl) (fst (batchLoadFn (map fst (batch dl)) w)) (promises dl).
Proof.
  unfold DataLoader_dispatch. destruct (batch dl) as [|e es]; [reflexivity|].
  now destruct (batchLoadFn _ w).
Qed.

(** After the flush the promise of the batch entry at position [j] has
    settled to the outcome at position [j]. *)
Lemma dispatch_delivers (dl : DataLoader) (w : World) (j : nat) (k : LoadKey) (p : nat) :
  Inv cacheKeyFn dl ->
  batch dl !! j = Some (k, p) ->
  exists v, fst (batchLoadFn (map fst (batch dl)) w) !! j = Some v
            /\ promises (fst (DataLoader_dispatch batchLoadFn dl w)) !! p
               = Some (Some v).
Proof.
  intros HI Hj.
  destruct (lookup_lt_is_Some_2 (fst (batchLoadFn (map fst (batch dl)) w)) j) as [v Hv].
  { rewrite batchLoadFn_length, length_map. eapply lookup_lt_Some, Hj. }
  exists v. split; [exact Hv|]. rewrite dispatch_promises.
  eapply resolve_batch_lookup; eauto using Inv_promises_nodup.
  eapply inv_cache_bound; [exact HI|]. eapply inv_batch_cached; [exact HI|].
  eapply list_elem_of_lookup_2, Hj.
Qed.

Lemma Inv_dispatch (dl : DataLoader) (w : World) :
  Inv cacheKeyFn dl -> Inv cacheKeyFn (fst (DataLoader_dispatch batchLoadFn dl w)).
Proof.
  intros HI. split.
  - rewrite dispatch_batch. intros key p H. inversion H.
  - rewrite dispatch_batch. constructor.
  - rewrite dispatch_cache, dispatch_promises, resolve_batch_length.
    apply (inv_cache_bound _ _ HI).
  - rewrite dispatch_cache. apply (inv_cache_inj _ _ HI).
  - rewrite dispatch_cache. intros ck p H. right.
    destruct (inv_cache_live _ _ HI _ _ H) as [[key Hin]|[s Hs]].
    + apply list_elem_of_lookup in Hin as [j Hj].
      destruct (dispatch_delivers dl w j key p HI Hj) as (v & _ & Hv). eauto.
    + rewrite dispatch_promises. eapply resolve_batch_settled, Hs.
Qed.

Lemma resolve_batch_fulfilled (es : list (LoadKey * nat)) (vs : list Settled)
    (ps : list (option Settled)) :
  Forall (fun v => exists o, v = Fulfilled o) vs ->
  (forall p s, ps !! p = Some (Some s) -> exists o, s = Fulfilled o) ->
  forall p s, resolve_batch es vs ps !! p = Some (Some s) -> exists o, s = Fulfilled o.
Proof.
  revert vs ps. induction es as [|[k q] es IH]; intros vs ps Hvs Hps; [exact Hps|].
  destruct Hvs as [|v vs Hv Hvs]; [exact Hps|]. simpl. apply IH; [exact Hvs|].
  intros p s. destruct (decide (q = p)) as [->|Hne].
  - destruct (decide (p < length ps)%nat).
    + rewrite list_lookup_insert_eq by assumption. intros E. injection E as <-. exact Hv.
    + rewrite list_insert_ge by lia. apply Hps.
  - rewrite list_lookup_insert_ne by assumption. apply Hps.
Qed.

Lemma AllFulfilled_dispatch (dl : DataLoader) (w : World) :
  (forall keys w, Forall (fun v => exists o, v = Fulfilled o) (fst (batchLoadFn keys w))) ->
  AllFulfilled dl -> AllFulfilled (fst (DataLoader_dispatch batchLoadFn dl w)).
Proof.
  intros Hfn H. unfold AllFulfilled. rewrite dispatch_promises.
  apply resolve_batch_fulfilled; [apply Hfn|exact H].
Qed.
End Dispatch.

Lemma AllFulfilled_load (key : LoadKey) (dl : DataLoader) :
  AllFulfilled dl -> AllFulfilled (snd (DataLoader_load cacheKeyFn key dl)).
Proof.
  intros H. case_load key dl; [exact H|].
  intros p s. simpl. intros Hp.
  apply lookup_app_Some in Hp as [Hp|[_ Hp]]; [eapply H, Hp|].
  apply list_lookup_singleton_Some in Hp as [_ Hp]. discriminate Hp.
Qed.

Lemma AllFulfilled_load_all (keys : list LoadKey) (dl : DataLoader) :
  AllFulfilled dl -> AllFulfilled (snd (DataLoader_load_all cacheKeyFn keys dl)).
Proof.
  revert dl. induction keys as [|key rest IH]; intros dl H; [exact H|].
  rewrite load_all_cons. simpl. apply IH, AllFulfilled_load, H.
Qed.

End EngineFacts.

(** ** The class *)

Section ClassFacts.

Lemma load_all_unfold (keys : list LoadKey) (this : ProductsLoader) :
  load_all keys this =
  (fst (DataLoader_load_all cacheKeyFunction keys (loader this)),
   with_loader this (snd (DataLoader_load_all cacheKeyFunction keys (loader this)))).
Proof.
  unfold load_all. now destruct (DataLoader_load_all cacheKeyFunction keys (loader this)).
Qed.

Lemma flush_unfold (this : ProductsLoader) (w : World) :
  flush this w =
  (with_loader this
     (fst (DataLoader_dispatch (loadingFunction (backend this) (actionParameters this))
             (loader this) w)),
   snd (DataLoader_dispatch (loadingFunction (backend this) (actionParameters this))
          (loader this) w)).
Proof. unfold flush. now destruct (DataLoader_dispatch _ _ _). Qed.

Lemma tick_unfold (keys : list LoadKey) (this : ProductsLoader) (w : World) :
  tick keys this w =
  (map (settled (fst (flush (snd (load_all keys this)) w))) (fst (load_all keys this)),
   fst (flush (snd (load_all keys this)) w),
   snd (flush (snd (load_all keys this)) w)).
Proof.
  unfold tick. destruct (load_all keys this) as [ps this1]. simpl.
  now destruct (flush this1 w).
Qed.

Lemma tick_backend (keys : list LoadKey) (this : ProductsLoader) (w : World) :
  backend (snd (fst (tick keys this w))) = backend this
  /\ actionParameters (snd (fst (tick keys this w))) = actionParameters this.
Proof. rewrite tick_unfold, flush_unfold, load_all_unfold. simpl. auto. Qed.

Lemma Ready_constructor (be : Backend) (ap : value) : Ready (constructor be ap).
Proof.
  split; [apply Inv_new|]. split; [reflexivity|]. intros p s H. simpl in H.
  rewrite lookup_nil in H. discriminate H.
Qed.

Lemma Ready_tick (keys : list LoadKey) (this : ProductsLoader) (w : World) :
  Ready this -> Ready (snd (fst (tick keys this w))).
Proof.
  intros (HI & _ & HF). rewrite tick_unfold, flush_unfold, load_all_unfold. simpl.
  split; [|split].
  - apply Inv_dispatch; [apply loadingFunction_length|]. apply Inv_load_all, HI.
  - apply dispatch_batch.
  - apply AllFulfilled_dispatch; [apply loadingFunction_fulfilled|].
    apply AllFulfilled_load_all, HF.
Qed.

Lemma run_ticks_cons (keys : list LoadKey) (later : list (list LoadKey))
    (this : ProductsLoader) (w : World) :
  run_ticks (keys :: later) this w =
  run_ticks later (snd (fst (tick keys this w))) (snd (tick keys this w)).
Proof. simpl. now destruct (tick keys this w) as [[outs this1] w1]. Qed.

Lemma Ready_run_ticks (history : list (list LoadKey)) (this : ProductsLoader) (w : World) :
  Ready this -> Ready (fst (run_ticks history this w)).
Proof.
  revert this w. induction history as [|keys later IH]; intros this w H; [exact H|].
  rewrite run_ticks_cons. apply IH, Ready_tick, H.
Qed.

Lemma run_ticks_backend (history : list (list LoadKey)) (this : ProductsLoader) (w : World) :
  backend (fst (run_ticks history this w)) = backend this
  /\ actionParameters (fst (run_ticks history this w)) = actionParameters this.
Proof.
  revert this w. induction history as [|keys later IH]; intros this w; [auto|].
  rewrite run_ticks_cons. destruct (IH (snd (fst (tick keys this w))) (snd (tick keys this w)))
    as [-> ->]. apply tick_backend.
Qed.

(** The outcome a caller sees is what the promise it was given has settled
    to after the flush. *)
Lemma tick_lookup (keys : list LoadKey) (this : ProductsLoader) (w : World) (i : nat) :
  fst (fst (tick keys this w)) !! i =
  settled (fst (flush (snd (load_all keys this)) w)) <$> fst (load_all keys this) !! i.
Proof. rewrite tick_unfold. simpl. apply list_lookup_fmap. Qed.

(** A caller whose key is pending at position [j] of the batch sees the
    outcome the resolver gives at position [j]. *)
Lemma tick_delivers (calls : list LoadKey) (this : ProductsLoader) (w : World)
    (a j : nat) (k : LoadKey) :
  Ready this ->
  calls !! a = Some k ->
  batch_keys calls this !! j = Some k ->
  exists v,
    fst (loadingFunction (backend this) (actionParameters this) (batch_keys calls this) w) !! j
      = Some v
    /\ fst (fst (tick calls this w)) !! a = Some (Some v).
Proof.
  intros (HI & _ & _) Ha Hj. unfold batch_keys in *. rewrite tick_lookup, flush_unfold.
  rewrite load_all_unfold in *. simpl in *.
  set (dl1 := snd (DataLoader_load_all cacheKeyFunction calls (loader this))) in *.
  assert (HI1 : Inv cacheKeyFunction dl1) by apply Inv_load_all, HI.
  destruct (load_all_lookup cacheKeyFunction calls (loader this) a k Ha) as (p & Hp & Hc).
  fold dl1 in Hc. rewrite Hp. simpl.
  rewrite list_lookup_fmap in Hj. destruct (batch dl1 !! j) as [[k' p']|] eqn:Hb; [|discriminate Hj].
  simpl in Hj. injection Hj as ->.
  assert (p' = p) as ->.
  { pose proof (inv_batch_cached _ _ HI1 k p' (list_elem_of_lookup_2 _ _ _ Hb)). congruence. }
  destruct (dispatch_delivers cacheKeyFunction
              (loadingFunction (backend this) (actionParameters this))
              (loadingFunction_length _ _) dl1 w j k p HI1 Hb) as (v & Hv & Hs).
  exists v. split; [exact Hv|]. unfold settled. simpl. now rewrite Hs.
Qed.

(** After a tick every caller's promise has settled. *)
Lemma tick_settles (calls : list LoadKey) (this : ProductsLoader) (w : World)
    (a : nat) (k : LoadKey) :
  Ready this ->
  calls !! a = Some k ->
  exists p s,
    fst (load_all calls this) !! a = Some p
    /\ cacheMap (loader (snd (load_all calls this))) !! cacheKeyFunction k = Some p
    /\ fst (fst (tick calls this w)) !! a = Some (Some s)
    /\ settled (fst (flush (snd (load_all calls this)) w)) p = Some s.
Proof.
  intros HR Ha. pose proof (Ready_tick calls this w HR) as (HI2 & _ & _).
  rewrite tick_lookup. rewrite tick_unfold in HI2. simpl in HI2.
  destruct (load_all_lookup cacheKeyFunction calls (loader this) a k Ha) as (p & Hp & Hc).
  rewrite load_all_unfold in *. simpl in *. rewrite Hp. simpl.
  rewrite flush_unfold in *. simpl in *.
  destruct (inv_cache_live _ _ HI2 (cacheKeyFunction k) p) as [[key Hin]|[s Hs]].
  - now rewrite dispatch_cache.
  - rewrite dispatch_batch in Hin. inversion Hin.
  - exists p, s. unfold settled. simpl. rewrite Hs. auto.
Qed.

End ClassFacts.

(** ** The scenarios of the specification *)

Example scenario_search :
  fst (fst (tick [key_search] (constructor good_backend action_parameters) w0))
  = [Some (Fulfilled (OResult result_search))].
Proof. vm_compute. reflexivity. Qed.

Example scenario_exact_match :
  fst (fst (tick [key_eq_S2] (constructor good_backend action_parameters) w0))
  = [Some (Fulfilled (OResult result_eq_S2))].
Proof. vm_compute. reflexivity. Qed.

(** The values are given as [S2, S1]; the records come in the order of the
    table. *)
Example scenario_membership :
  fst (fst (tick [key_in] (constructor good_backend action_parameters) w0))
  = [Some (Fulfilled (OResult result_in))].
Proof. vm_compute. reflexivity. Qed.

Example scenario_unknown_identifier :
  fst (__searchProducts good_backend key_eq_unknown action_parameters w0) = Rejected TypeError
  /\ fst (fst (tick [key_eq_unknown] (constructor good_backend action_parameters) w0))
     = [Some (Fulfilled ONull)].
Proof. vm_compute. auto. Qed.

Example scenario_backend_unavailable :
  fst (fst (tick [key_search; key_eq_S2] (constructor refusing_backend action_parameters) w0))
  = [Some (Fulfilled ONull); Some (Fulfilled ONull)]
  /\ fst (fst (tick [key_search] (constructor broken_sheet_backend action_parameters) w0))
     = [Some (Fulfilled ONull)]
  /\ fst (fst (tick [key_search] (constructor good_backend undefined) w0))
     = [Some (Fulfilled ONull)].
Proof. vm_compute. auto. Qed.

Example search_is_case_sensitive :
  str_includes "Shirt" "Sh" = true /\ str_includes "Shirt" "sh" = false.
Proof. vm_compute. auto. Qed.

(** ** Properties of the resolver *)

(** C1, as stated, fails: a batch of two keys makes two token acquisitions
    and two fetches of the table, not one of each. *)
Lemma one_backend_contact_per_batch_counterexample :
  let w' := snd (loadingFunction good_backend action_parameters [key_search; key_eq_S2] w0) in
  tokenCalls w' = 2%nat /\ fetchCalls w' = 2%nat
  /\ ~ (tokenCalls w' = 1%nat /\ fetchCalls w' = 1%nat).
Proof. vm_compute. repeat split. intros [H _]. discriminate H. Qed.

(** C1, as amended: in one invocation of the resolver the backend is
    contacted once per key of the batch.  With the action parameters present,
    a batch of [n] keys makes [n] token acquisitions, and one fetch of the
    table for each acquisition that is granted, so [n] fetches when all are. *)
Theorem backend_contacted_once_per_key (be : Backend) (ap id : value)
    (keys : list LoadKey) (w : World) :
  get ap "SPREADSHEET" = Return id ->
  let w' := snd (loadingFunction be ap keys w) in
  tokenCalls w' = (tokenCalls w + length keys)%nat
  /\ fetchCalls w' =
     (fetchCalls w
      + length (List.filter (token_granted be) (seq (tokenCalls w) (length keys))))%nat
  /\ ((forall n, token_granted be n = true) ->
      fetchCalls w' = (fetchCalls w + length keys)%nat).
Proof.
  intros Hid w'. subst w'. split; [|split].
  - eapply loadingFunction_token_calls, Hid.
  - eapply loadingFunction_fetch_calls, Hid.
  - intros Hall. rewrite (loadingFunction_fetch_calls _ _ _ _ _ Hid). f_equal.
    rewrite forallb_filter_id; [apply length_seq|].
    apply forallb_forall. intros n _. apply Hall.
Qed.

Lemma backend_contacted_once_per_key_witness :
  get action_parameters "SPREADSHEET" = Return (Some (JStr "sheet-1"))
  /\ (let w' := snd (loadingFunction good_backend action_parameters
                       [key_search; key_eq_S2; key_in] w0) in
      tokenCalls w' = (tokenCalls w0 + 3)%nat
      /\ fetchCalls w' =
         (fetchCalls w0
          + length (List.filter (token_granted good_backend) (seq (tokenCalls w0) 3)))%nat
      /\ ((forall n, token_granted good_backend n = true) ->
          fetchCalls w' = (fetchCalls w0 + 3)%nat)).
Proof.
  split; [reflexivity|].
  apply (backend_contacted_once_per_key good_backend action_parameters
           (Some (JStr "sheet-1")) [key_search; key_eq_S2; key_in] w0).
  reflexivity.
Defined.

Lemma round_double_exact (x : Z) : Z.abs x <= 2 ^ 53 -> round_double x = x.
Proof.
  intros H. unfold round_double. destruct (Z.abs x <? 2 ^ 53) eqn:E; [reflexivity|].
  apply Z.ltb_ge in E. assert (Hx : x = 2 ^ 53 \/ x = - 2 ^ 53) by lia.
  destruct Hx as [-> | ->]; vm_compute; reflexivity.
Qed.

Lemma truthy_nonempty (s : string) : s <> ""%string -> truthy (Some (JStr s)) = true.
Proof. intros H. simpl. apply negb_true_iff, String.eqb_neq, H. Qed.

Lemma search_rows_search (params : LoadKey) (s : string) (rows : list Row) :
  prop params "search" = Some (JStr s) -> s <> ""%string ->
  search_rows params rows = search_branch params (JStr s) rows.
Proof.
  intros Hs Hne. unfold search_rows. rewrite Hs. now rewrite (truthy_nonempty s Hne).
Qed.

Lemma search_rows_no_search (params : LoadKey) (rows : list Row) :
  truthy (prop params "search") = false ->
  search_rows params rows = filter_branch params rows.
Proof.
  intros H. unfold search_rows. destruct (prop params "search"); [|reflexivity].
  now rewrite H.
Qed.

Lemma to_number_throws (v : value) (e : JSError) :
  to_number v = Throw e -> e = TypeError.
Proof.
  destruct v as [j|]; [|discriminate]. unfold to_number.
  destruct (to_string_throws j); [|discriminate]. now injection 1.
Qed.

(** The product of the page numbers throws nothing but a [TypeError]. *)
Lemma page_offset_throws (params : LoadKey) (e : JSError) :
  page_offset params = Throw e -> e = TypeError.
Proof.
  unfold page_offset, js_mul.
  destruct (to_number (prop params "currentPage")) as [x|e1] eqn:E1; simpl.
  - destruct (to_number (prop params "pageSize")) as [y|e2] eqn:E2; simpl; [discriminate|].
    injection 1 as <-. eapply to_number_throws, E2.
  - injection 1 as <-. eapply to_number_throws, E1.
Qed.

Lemma page_offset_numbers (params : LoadKey) (cp ps : Z) :
  PageNumbers params cp ps -> page_offset params = Return (Int (round_double (cp * ps))).
Proof.
  intros [Hcp Hps Hc Hp]. unfold page_offset, js_mul, to_number. rewrite Hcp, Hps.
  apply Z.leb_le in Hc, Hp. simpl. now rewrite Hc, Hp.
Qed.

Lemma tick_single (be : Backend) (ap : value) (key : LoadKey) (w : World) :
  fst (fst (tick [key] (constructor be ap) w))
  = [Some (catch_null (fst (__searchProducts be key ap w)))].
Proof.
  rewrite tick_unfold, flush_unfold, load_all_unfold. simpl.
  unfold DataLoader_load. simpl. rewrite lookup_empty. simpl.
  unfold DataLoader_dispatch. simpl.
  destruct (__searchProducts be key ap w) as [p w1]. reflexivity.
Qed.

(** C5, as stated, fails: the second row of this table has lost its title
    cell, and a search for ["Sh"], which the title of the first row
    contains, is not answered with that row.  Reading the title of the
    second row throws, the resolution rejects and [load] gives [null]. *)
Lemma search_over_row_without_title_counterexample :
  prop key_search "search" = Some (JStr "Sh")
  /\ List.filter (title_matches "Sh") sheet_short
     = [ ["S1"; "Shirt"; "apparel"; "19.99"; "img1"]%string ]
  /\ fst (__searchProducts short_backend key_search action_parameters w0) = Rejected TypeError
  /\ fst (fst (tick [key_search] (constructor short_backend action_parameters) w0))
     = [Some (Fulfilled ONull)].
Proof. rewrite tick_single. vm_compute. auto. Qed.

(** C5, as amended: over a table in which every row has its title cell, a
    key with a non-empty [search] string and integer page numbers is answered
    with exactly the rows whose title, the second cell, contains the string,
    compared code unit by code unit; [total] is their number, [offset] is
    [currentPage * pageSize], [limit] is [pageSize], and [products] holds
    all of them, in the order of the table and without a page being cut
    out. *)
Theorem search_returns_title_matches (be : Backend) (ap id : value) (w : World)
    (tok : Credential) (rows : list Row) (params : LoadKey) (s : string) (cp ps : Z) :
  get ap "SPREADSHEET" = Return id ->
  authReply be (tokenCalls w) = Return tok ->
  sheetReply be (fetchCalls w) id tok spreadsheetRange = Return rows ->
  Forall (fun row : Row => is_Some (row !! 1%nat)) rows ->
  prop params "search" = Some (JStr s) -> s <> ""%string ->
  PageNumbers params cp ps ->
  let matches := List.filter (title_matches s) rows in
  fst (__searchProducts be params ap w) =
    Fulfilled (OResult {| total := length matches;
                          offset := Int (round_double (cp * ps));
                          limit := Some (JNum ps);
                          products := map to_product matches |})
  /\ (forall row : Row,
        row ∈ matches <-> row ∈ rows /\ exists t, row !! 1%nat = Some t /\ occurs_in s t)
  /\ (Z.abs (cp * ps) <= 2 ^ 53 -> round_double (cp * ps) = cp * ps).
Proof.
  intros Hid Htok Hrows Htitles Hs Hne Hpage matches. split; [|split].
  - rewrite (searchProducts_fetched _ _ _ _ _ _ _ Hid Htok Hrows).
    rewrite (search_rows_search _ _ _ Hs Hne). unfold search_branch.
    rewrite (filterM_total _ (title_matches s)).
    + simpl. now rewrite (page_offset_numbers _ _ _ Hpage), (page_size _ _ _ Hpage).
    + eapply Forall_impl; [exact Htitles|]. intros row [t Ht].
      unfold title_includes, title_matches. now rewrite Ht.
  - intros row. subst matches. rewrite !list_elem_of_In, filter_In, <- list_elem_of_In.
    unfold title_matches. split.
    + intros [Hin Hm]. split; [exact Hin|]. destruct (row !! 1%nat) as [t|]; [|discriminate Hm].
      exists t. split; [reflexivity|]. now apply str_includes_spec.
    + intros [Hin (t & Ht & Ho)]. split; [exact Hin|]. rewrite Ht. now apply str_includes_spec.
  - apply round_double_exact.
Qed.

Lemma search_returns_title_matches_witness :
  get action_parameters "SPREADSHEET" = Return (Some (JStr "sheet-1"))
  /\ authReply good_backend (tokenCalls w0) = Return "token"%string
  /\ sheetReply good_backend (fetchCalls w0) (Some (JStr "sheet-1")) "token" spreadsheetRange
     = Return sheet
  /\ Forall (fun row : Row => is_Some (row !! 1%nat)) sheet
  /\ prop key_search "search" = Some (JStr "Sh") /\ "Sh"%string <> ""%string
  /\ PageNumbers key_search 0 10
  /\ fst (__searchProducts good_backend key_search action_parameters w0)
     = Fulfilled (OResult result_search).
Proof.
  assert (Ht : Forall (fun row : Row => is_Some (row !! 1%nat)) sheet)
    by (repeat constructor; simpl; eauto).
  assert (Hne : "Sh"%string <> ""%string) by discriminate.
  assert (Hpage : PageNumbers key_search 0 10)
    by (constructor; [reflexivity | reflexivity | vm_compute; discriminate
                     | vm_compute; discriminate]).
  refine (conj eq_refl (conj eq_refl (conj eq_refl (conj Ht (conj eq_refl (conj Hne
            (conj Hpage _))))))).
  exact (proj1 (search_returns_title_matches good_backend action_parameters
                  (Some (JStr "sheet-1")) w0 "token" sheet key_search "Sh" 0 10
                  eq_refl eq_refl eq_refl Ht eq_refl Hne Hpage)).
Defined.

(** The membership filter on [sku], without a [url_key] filter: the rows
    whose identifier is among the values, in the order of the table. *)
Lemma sku_membership_filter (params : LoadKey) (f o : list (string * JValue))
    (vs : list JValue) (rows : list Row) :
  truthy (prop params "search") = false ->
  prop params "filter" = Some (JObj f) ->
  lookup_prop "sku" f = Some (JObj o) ->
  lookup_prop "url_key" f = None ->
  lookup_prop "eq" o = None ->
  lookup_prop "in" o = Some (JArr vs) ->
  search_rows params rows =
  bind (page_offset params) (fun off =>
  Return (OResult {| total := length (List.filter (id_among vs) rows);
                     offset := off;
                     limit := prop params "pageSize";
                     products := map to_product (List.filter (id_among vs) rows) |})).
Proof.
  intros Hs Hf Hsku Hurl Heq Hin. rewrite (search_rows_no_search _ _ Hs).
  unfold filter_branch, has_filter, has_eq, has_in, operand. rewrite Hf. simpl.
  rewrite Hsku, Hurl. simpl. rewrite Heq, Hin. simpl.
  rewrite (filterM_total _ (id_among vs)); [reflexivity|].
  apply Forall_forall. intros row _. reflexivity.
Qed.

(** The membership filter on [url_key] alone: the test of the branch reads
    [params.filter.sku.in] first, and [params.filter.sku] is [undefined]. *)
Lemma url_key_membership_filter (params : LoadKey) (f o : list (string * JValue))
    (vs : list JValue) (rows : list Row) :
  truthy (prop params "search") = false ->
  prop params "filter" = Some (JObj f) ->
  lookup_prop "sku" f = None ->
  lookup_prop "url_key" f = Some (JObj o) ->
  lookup_prop "eq" o = None ->
  lookup_prop "in" o = Some (JArr vs) ->
  search_rows params rows = Throw TypeError.
Proof.
  intros Hs Hf Hsku Hurl Heq Hin. rewrite (search_rows_no_search _ _ Hs).
  unfold filter_branch, has_filter, has_eq, has_in. rewrite Hf. simpl.
  rewrite Hsku, Hurl. simpl. rewrite Heq. simpl. reflexivity.
Qed.

(** C6 at the failing input: a key whose only filter is [url_key.in] is not
    answered with the rows of its identifiers.  The resolution throws when
    it reads [in] of the absent [sku] filter, and [load] gives [null]; the
    same values under [sku.in] give both rows, in the order of the table. *)
Theorem url_key_membership_filter_throws :
  fst (__searchProducts good_backend key_url_key_in action_parameters w0) = Rejected TypeError
  /\ fst (fst (tick [key_url_key_in] (constructor good_backend action_parameters) w0))
     = [Some (Fulfilled ONull)]
  /\ fst (__searchProducts good_backend key_in action_parameters w0)
     = Fulfilled (OResult result_in).
Proof. rewrite tick_single. vm_compute. auto. Qed.

Lemma find_first (q : Row -> bool) (pre post : list Row) (row : Row) :
  Forall (fun r => q r = false) pre -> q row = true ->
  find q (pre ++ row :: post) = Some row.
Proof.
  induction 1 as [|r pre Hr _ IH]; intros Hrow; simpl.
  - now rewrite Hrow.
  - rewrite Hr. apply IH, Hrow.
Qed.

Lemma find_none (q : Row -> bool) (rows : list Row) :
  Forall (fun r => q r = false) rows -> find q rows = None.
Proof. induction 1 as [|r rows Hr _ IH]; simpl; [reflexivity|]. now rewrite Hr. Qed.

Lemma strict_eq_has_id (row : Row) (v : string) :
  strict_eq (cell row 0) (Some (JStr v)) = has_id v row.
Proof. unfold cell, has_id. now destruct (row !! 0%nat). Qed.

Lemma has_id_false (row : Row) (v : string) :
  row !! 0%nat <> Some v -> has_id v row = false.
Proof.
  unfold has_id. destruct (row !! 0%nat) as [c|]; [|reflexivity].
  intros H. apply String.eqb_neq. congruence.
Qed.

Lemma has_id_true (row : Row) (v : string) : row !! 0%nat = Some v -> has_id v row = true.
Proof. unfold has_id. intros ->. apply String.eqb_refl. Qed.

(** The exact-match branch, once the table is there. *)
Lemma exact_match_rows (params : LoadKey) (v : string) (rows : list Row) :
  truthy (prop params "search") = false ->
  ExactMatch params v -> v <> ""%string ->
  search_rows params rows =
  bind (page_offset params) (fun off =>
  match find (has_id v) rows with
  | Some product =>
      Return (OResult {| total := 1;
                         offset := off;
                         limit := prop params "pageSize";
                         products := [to_product product] |})
  | None => Throw TypeError
  end).
Proof.
  intros Hs Hm Hne. rewrite (search_rows_no_search _ _ Hs).
  pose proof (truthy_nonempty v Hne) as Hv.
  assert (E : find (fun row => strict_eq (cell row 0) (Some (JStr v))) rows
              = find (has_id v) rows).
  { induction rows as [|r rows IH]; simpl; [reflexivity|].
    now rewrite strict_eq_has_id, IH. }
  unfold filter_branch, has_filter, has_eq, operand.
  destruct Hm as [f o Hf Hsku Heq|f o Hf Hsku Hurl Heq]; rewrite Hf; simpl.
  - rewrite Hsku. simpl. rewrite Heq, Hv. simpl. now rewrite E.
  - rewrite Hsku, Hurl. simpl. rewrite Heq, Hv. simpl. now rewrite E.
Qed.

(** C7, as stated, fails, on three keys that carry an exact-match filter
    for the identifier of a row of the table.  On the first,
    [filter.sku.eq] stands beside a search string: the search is answered,
    with both rows and [total] 2.  On the second the identifier asked for is
    the empty string, which is not truthy: the exact-match branch is not
    entered, the next test reads [in] of the absent [url_key] filter, and the
    resolution throws.  On the third, [filter.url_key.eq] stands beside a
    [sku] filter without [eq]: the value looked up is [filter.sku.eq], which
    is undefined, no row is found, the resolution throws and [load] gives
    [null]. *)
Lemma exact_match_beside_other_criteria_counterexample :
  find (has_id "S2") sheet = Some ["S2"; "Shoe"; "footwear"; "49.99"; "img2"]%string
  /\ fst (__searchProducts good_backend key_search_and_filter action_parameters w0)
     = Fulfilled (OResult result_search)
  /\ total result_search = 2%nat
  /\ find (has_id "") sheet_blank = Some [""; "Sock"; "footwear"; "4.99"; "img3"]%string
  /\ fst (__searchProducts blank_backend key_eq_blank action_parameters w0)
     = Rejected TypeError
  /\ operand (prop key_in_and_url_key_eq "filter") "eq" = Return None
  /\ fst (__searchProducts good_backend key_in_and_url_key_eq action_parameters w0)
     = Rejected TypeError
  /\ fst (fst (tick [key_in_and_url_key_eq] (constructor good_backend action_parameters) w0))
     = [Some (Fulfilled ONull)].
Proof. rewrite tick_single. vm_compute. auto 10. Qed.

(** C7, as amended: a key without a search string, with integer page
    numbers, that asks for a non-empty identifier by [filter.sku.eq], or by
    [filter.url_key.eq] when there is no [sku] filter.  When a row has that
    identifier the result is exactly one product, the first such row, with
    [total] 1.  When none has, no outcome is built: the resolution throws on
    the missing record and the promise of [load] is fulfilled with [null]. *)
Theorem exact_match_first_row_or_null (be : Backend) (ap id : value) (w : World)
    (tok : Credential) (rows : list Row) (params : LoadKey) (v : string) (cp ps : Z) :
  get ap "SPREADSHEET" = Return id ->
  authReply be (tokenCalls w) = Return tok ->
  sheetReply be (fetchCalls w) id tok spreadsheetRange = Return rows ->
  truthy (prop params "search") = false ->
  ExactMatch params v -> v <> ""%string ->
  PageNumbers params cp ps ->
  (forall (pre post : list Row) (row : Row),
      rows = pre ++ row :: post ->
      Forall (fun r : Row => r !! 0%nat <> Some v) pre ->
      row !! 0%nat = Some v ->
      fst (__searchProducts be params ap w) =
        Fulfilled (OResult {| total := 1;
                              offset := Int (round_double (cp * ps));
                              limit := Some (JNum ps);
                              products := [to_product row] |}))
  /\ (Forall (fun r : Row => r !! 0%nat <> Some v) rows ->
      fst (__searchProducts be params ap w) = Rejected TypeError
      /\ fst (fst (tick [params] (constructor be ap) w)) = [Some (Fulfilled ONull)]).
Proof.
  intros Hid Htok Hrows Hs Hm Hne Hpage.
  pose proof (searchProducts_fetched be params ap w id tok rows Hid Htok Hrows) as E.
  rewrite (exact_match_rows _ _ _ Hs Hm Hne) in E. split.
  - intros pre post row -> Hpre Hrow. rewrite E, (find_first _ pre post row).
    + now rewrite (page_offset_numbers _ _ _ Hpage), (page_size _ _ _ Hpage).
    + eapply Forall_impl; [exact Hpre|]. intros r. apply has_id_false.
    + now apply has_id_true.
  - intros Hnone. rewrite tick_single, E, find_none.
    + rewrite (page_offset_numbers _ _ _ Hpage). auto.
    + eapply Forall_impl; [exact Hnone|]. intros r. apply has_id_false.
Qed.

Lemma exact_match_first_row_or_null_witness :
  get action_parameters "SPREADSHEET" = Return (Some (JStr "sheet-1"))
  /\ authReply good_backend (tokenCalls w0) = Return "token"%string
  /\ sheetReply good_backend (fetchCalls w0) (Some (JStr "sheet-1")) "token" spreadsheetRange
     = Return sheet
  /\ truthy (prop key_eq_S2 "search") = false
  /\ ExactMatch key_eq_S2 "S2" /\ "S2"%string <> ""%string
  /\ PageNumbers key_eq_S2 0 10
  /\ fst (__searchProducts good_backend key_eq_S2 action_parameters w0)
     = Fulfilled (OResult result_eq_S2).
Proof.
  assert (Hm : ExactMatch key_eq_S2 "S2").
  { eapply (exact_by_sku key_eq_S2 "S2"); reflexivity. }
  assert (Hne : "S2"%string <> ""%string) by discriminate.
  assert (Hpage : PageNumbers key_eq_S2 0 10)
    by (constructor; [reflexivity | reflexivity | vm_compute; discriminate
                     | vm_compute; discriminate]).
  refine (conj eq_refl (conj eq_refl (conj eq_refl (conj eq_refl (conj Hm (conj Hne
            (conj Hpage _))))))).
  refine (proj1 (exact_match_first_row_or_null good_backend action_parameters
                   (Some (JStr "sheet-1")) w0 "token" sheet key_eq_S2 "S2" 0 10
                   eq_refl eq_refl eq_refl eq_refl Hm Hne Hpage)
            [ ["S1"; "Shirt"; "apparel"; "19.99"; "img1"]%string ] []
            ["S2"; "Shoe"; "footwear"; "49.99"; "img2"]%string eq_refl _ eq_refl).
  repeat constructor. discriminate.
Defined.

Lemma filter_branch_products (params : LoadKey) (rows : list Row) (r : SearchResult)
    (p : ProductRecord) :
  filter_branch params rows = Return (OResult r) -> p ∈ products r ->
  exists row, row ∈ rows /\ p = to_product row.
Proof.
  unfold filter_branch. intros E Hp.
  destruct (has_filter (prop params "filter")) as [[]|]; simpl in E; try discriminate E.
  destruct (has_eq (prop params "filter")) as [[]|]; simpl in E; try discriminate E.
  - destruct (operand (prop params "filter") "eq") as [key|]; simpl in E; [|discriminate E].
    destruct (page_offset params) as [off|]; simpl in E; [|discriminate E].
    destruct (find _ rows) as [product|] eqn:Hfind; [|discriminate E].
    injection E as <-. simpl in Hp. apply list_elem_of_singleton in Hp as ->.
    exists product. split; [|reflexivity].
    apply list_elem_of_In. eapply find_some, Hfind.
  - destruct (has_in (prop params "filter")) as [[]|]; simpl in E; try discriminate E.
    destruct (operand (prop params "filter") "in") as [keys|]; simpl in E; [|discriminate E].
    destruct (filterM _ rows) as [kept|] eqn:Hkept; simpl in E; [|discriminate E].
    destruct (page_offset params) as [off|]; simpl in E; [|discriminate E].
    injection E as <-. simpl in Hp. apply list_elem_of_fmap in Hp as (row & -> & Hrow).
    exists row. split; [|reflexivity]. eapply filterM_elem; eauto.
Qed.

Lemma search_rows_products (params : LoadKey) (rows : list Row) (r : SearchResult)
    (p : ProductRecord) :
  search_rows params rows = Return (OResult r) -> p ∈ products r ->
  exists row, row ∈ rows /\ p = to_product row.
Proof.
  unfold search_rows. intros E Hp.
  destruct (prop params "search") as [search|]; [|eapply filter_branch_products; eauto].
  destruct (truthy (Some search)); [|eapply filter_branch_products; eauto].
  unfold search_branch in E.
  destruct (filterM _ rows) as [kept|] eqn:Hkept; simpl in E; [|discriminate E].
  destruct (page_offset params) as [off|]; simpl in E; [|discriminate E].
  injection E as <-. simpl in Hp. apply list_elem_of_fmap in Hp as (row & -> & Hrow).
  exists row. split; [|reflexivity]. eapply filterM_elem; eauto.
Qed.

(** C9, as stated, fails: the amount of a product is the cell of the sheet,
    the string ["19.99"], and not a number. *)
Lemma price_amount_is_number_counterexample :
  fst (__searchProducts good_backend key_search action_parameters w0)
  = Fulfilled (OResult result_search)
  /\ products result_search = [product_S1; product_S2]
  /\ amount (price product_S1) = Some (JStr "19.99")
  /\ is_number (amount (price product_S1)) = false.
Proof. vm_compute. auto. Qed.

(** C9, as amended: every product of a result comes from a row of the
    table by the fixed mapping.  [sku] is the identifier cell, [title] the
    title cell, [description] the fixed prefix followed by the title,
    [price.currency] is ["USD"], [price.amount] is the price cell as it is in
    the sheet (a string cell stays a string: it is never made a number),
    [image_url] is the image cell, and [categoryIds] is the pair [1, 2]
    whatever the row. *)
Theorem products_follow_row_mapping (be : Backend) (ap id : value) (w : World)
    (tok : Credential) (rows : list Row) (params : LoadKey) (r : SearchResult)
    (p : ProductRecord) :
  get ap "SPREADSHEET" = Return id ->
  authReply be (tokenCalls w) = Return tok ->
  sheetReply be (fetchCalls w) id tok spreadsheetRange = Return rows ->
  fst (__searchProducts be params ap w) = Fulfilled (OResult r) ->
  p ∈ products r ->
  exists row : Row,
    row ∈ rows
    /\ sku p = cell row 0
    /\ title p = cell row 1
    /\ description p = ("Description for product " +:+ template (cell row 1))%string
    /\ currency (price p) = "USD"%string
    /\ amount (price p) = cell row 3
    /\ is_number (amount (price p)) = false
    /\ image_url p = cell row 4
    /\ categoryIds p = [1; 2].
Proof.
  intros Hid Htok Hrows E Hp.
  rewrite (searchProducts_fetched _ _ _ _ _ _ _ Hid Htok Hrows) in E.
  destruct (search_rows params rows) as [o|] eqn:Hs; simpl in E; [|discriminate E].
  injection E as ->. destruct (search_rows_products _ _ _ _ Hs Hp) as (row & Hrow & ->).
  exists row. simpl. repeat split; try assumption.
  unfold cell. now destruct (row !! 3%nat).
Qed.

Lemma products_follow_row_mapping_witness :
  get action_parameters "SPREADSHEET" = Return (Some (JStr "sheet-1"))
  /\ authReply good_backend (tokenCalls w0) = Return "token"%string
  /\ sheetReply good_backend (fetchCalls w0) (Some (JStr "sheet-1")) "token" spreadsheetRange
     = Return sheet
  /\ fst (__searchProducts good_backend key_eq_S2 action_parameters w0)
     = Fulfilled (OResult result_eq_S2)
  /\ product_S2 ∈ products result_eq_S2
  /\ exists row : Row,
       row ∈ sheet
       /\ sku product_S2 = cell row 0
       /\ title product_S2 = cell row 1
       /\ description product_S2
          = ("Description for product " +:+ template (cell row 1))%string
       /\ currency (price product_S2) = "USD"%string
       /\ amount (price product_S2) = cell row 3
       /\ is_number (amount (price product_S2)) = false
       /\ image_url product_S2 = cell row 4
       /\ categoryIds product_S2 = [1; 2].
Proof.
  assert (Hin : product_S2 ∈ products result_eq_S2) by (simpl; left).
  repeat (split; [first [reflexivity | assumption]|]).
  exact (products_follow_row_mapping good_backend action_parameters (Some (JStr "sheet-1"))
           w0 "token" sheet key_eq_S2 result_eq_S2 product_S2
           eq_refl eq_refl eq_refl eq_refl Hin).
Defined.



Lemma search_branch_ext (params params' : LoadKey) (search : JValue) (rows : list Row) :
  prop params' "currentPage" = prop params "currentPage" ->
  prop params' "pageSize" = prop params "pageSize" ->
  search_branch params' search rows = search_branch params search rows.
Proof. intros Hcp Hps. unfold search_branch, page_offset. now rewrite Hcp, Hps. Qed.

Lemma filter_branch_ext (params params' : LoadKey) (rows : list Row) :
  prop params' "filter" = prop params "filter" ->
  prop params' "currentPage" = prop params "currentPage" ->
  prop params' "pageSize" = prop params "pageSize" ->
  filter_branch params' rows = filter_branch params rows.
Proof.
  intros Hf Hcp Hps. unfold filter_branch, page_offset. now rewrite Hf, Hcp, Hps.
Qed.



(** ** Properties of the loader *)

(** C3, as stated, fails: a key with neither [search] nor [filter] is a
    failure that does not surface as [null].  No outcome is built for it and
    the promise of [load] is fulfilled with [undefined]. *)
Lemma malformed_key_is_null_counterexample :
  fst (fst (tick [key_no_criteria] (constructor good_backend action_parameters) w0))
  = [Some (Fulfilled OUndefined)]
  /\ Fulfilled OUndefined <> Fulfilled ONull.
Proof. rewrite tick_single. vm_compute. split; [reflexivity|discriminate]. Qed.

(** C3, as amended: the promise returned by [load] never rejects.  After the
    flush every caller's promise is fulfilled; a resolution that throws
    (the backend refuses the token or the table, the action parameters are
    missing, no record has the identifier asked for) surfaces as [null]; and
    [null] is not a search result, so it cannot be taken for a successful
    result with [total] 0. *)
Theorem load_never_rejects (be : Backend) (ap : value) (history : list (list LoadKey))
    (w0 : World) (calls : list LoadKey) :
  let this := fst (run_ticks history (constructor be ap) w0) in
  let w := snd (run_ticks history (constructor be ap) w0) in
  Forall (fun out => exists o, out = Some (Fulfilled o)) (fst (fst (tick calls this w)))
  /\ (forall (key : LoadKey) (w' : World) (e : JSError),
        fst (__searchProducts be key ap w') = Rejected e ->
        fst (loadingFunction be ap [key] w') = [Fulfilled ONull]
        /\ fst (fst (tick [key] (constructor be ap) w')) = [Some (Fulfilled ONull)])
  /\ (forall r : SearchResult, Fulfilled ONull <> Fulfilled (OResult r)).
Proof.
  intros this w. split; [|split].
  - assert (HR : Ready this) by apply Ready_run_ticks, Ready_constructor.
    apply Forall_lookup. intros a out Ha.
    assert (Hlen : (a < length calls)%nat).
    { apply lookup_lt_Some in Ha. rewrite tick_unfold in Ha. simpl in Ha.
      rewrite length_map, load_all_unfold in Ha. simpl in Ha.
      now rewrite load_all_length in Ha. }
    destruct (lookup_lt_is_Some_2 calls a Hlen) as [k Hk].
    destruct (tick_settles calls this w a k HR Hk) as (p & s & _ & _ & Hout & Hs).
    rewrite Hout in Ha. injection Ha as <-.
    pose proof (Ready_tick calls this w HR) as (_ & _ & HF).
    rewrite tick_unfold in HF. simpl in HF. unfold settled in Hs.
    destruct (promises _ !! p) as [[s'|]|] eqn:Hp; simpl in Hs; try discriminate Hs.
    injection Hs as ->. destruct (HF p s Hp) as [o ->]. eauto.
  - intros key w' e E. rewrite tick_single, loadingFunction_cons, E. auto.
  - intros r. discriminate.
Qed.

(** C4: within a batch a key is answered by its own resolution.  When the
    resolution of the key at position [i] gives a search result and that of
    the key at position [j] throws, the resolver returns the result at [i]
    and [null] at [j], and the callers that loaded the two keys get the
    result and [null]. *)
Theorem failure_isolation (be : Backend) (ap : value) (history : list (list LoadKey))
    (w0 : World) (calls : list LoadKey) (a b i j : nat) (k1 k2 : LoadKey)
    (r : SearchResult) (e : JSError) :
  let this := fst (run_ticks history (constructor be ap) w0) in
  let w := snd (run_ticks history (constructor be ap) w0) in
  let keys := batch_keys calls this in
  calls !! a = Some k1 -> calls !! b = Some k2 ->
  keys !! i = Some k1 -> keys !! j = Some k2 ->
  resolution be ap keys w i = Some (Fulfilled (OResult r)) ->
  resolution be ap keys w j = Some (Rejected e) ->
  fst (loadingFunction be ap keys w) !! i = Some (Fulfilled (OResult r))
  /\ fst (loadingFunction be ap keys w) !! j = Some (Fulfilled ONull)
  /\ fst (fst (tick calls this w)) !! a = Some (Some (Fulfilled (OResult r)))
  /\ fst (fst (tick calls this w)) !! b = Some (Some (Fulfilled ONull)).
Proof.
  intros this w keys Ha Hb Hi Hj Hri Hrj.
  assert (HR : Ready this) by apply Ready_run_ticks, Ready_constructor.
  destruct (run_ticks_backend history (constructor be ap) w0) as [Hbe Hap].
  fold this in Hbe, Hap. simpl in Hbe, Hap.
  assert (Ei : fst (loadingFunction be ap keys w) !! i = Some (Fulfilled (OResult r)))
    by now rewrite loadingFunction_lookup, Hri.
  assert (Ej : fst (loadingFunction be ap keys w) !! j = Some (Fulfilled ONull))
    by now rewrite loadingFunction_lookup, Hrj.
  repeat split; try assumption.
  - destruct (tick_delivers calls this w a i k1 HR Ha Hi) as (v & Hv & Hout).
    rewrite Hbe, Hap in Hv. fold keys in Hv. congruence.
  - destruct (tick_delivers calls this w b j k2 HR Hb Hj) as (v & Hv & Hout).
    rewrite Hbe, Hap in Hv. fold keys in Hv. congruence.
Qed.

Lemma failure_isolation_witness :
  let this := fst (run_ticks [] (constructor good_backend action_parameters) w0) in
  let w := snd (run_ticks [] (constructor good_backend action_parameters) w0) in
  let calls := [key_search; key_eq_unknown] in
  let keys := batch_keys calls this in
  calls !! 0%nat = Some key_search /\ calls !! 1%nat = Some key_eq_unknown
  /\ keys !! 0%nat = Some key_search /\ keys !! 1%nat = Some key_eq_unknown
  /\ resolution good_backend action_parameters keys w 0 = Some (Fulfilled (OResult result_search))
  /\ resolution good_backend action_parameters keys w 1 = Some (Rejected TypeError)
  /\ fst (fst (tick calls this w)) !! 0%nat = Some (Some (Fulfilled (OResult result_search)))
  /\ fst (fst (tick calls this w)) !! 1%nat = Some (Some (Fulfilled ONull)).
Proof.
  intros this w calls keys.
  assert (H0 : keys !! 0%nat = Some key_search) by (vm_compute; reflexivity).
  assert (H1 : keys !! 1%nat = Some key_eq_unknown) by (vm_compute; reflexivity).
  assert (R0 : resolution good_backend action_parameters keys w 0
               = Some (Fulfilled (OResult result_search))) by (vm_compute; reflexivity).
  assert (R1 : resolution good_backend action_parameters keys w 1
               = Some (Rejected TypeError)) by (vm_compute; reflexivity).
  refine (conj eq_refl (conj eq_refl (conj H0 (conj H1 (conj R0 (conj R1 _)))))).
  exact (proj2 (proj2 (failure_isolation good_backend action_parameters [] w0 calls
                         0 1 0 1 key_search key_eq_unknown result_search TypeError
                         eq_refl eq_refl H0 H1 R0 R1))).
Defined.



(** ** Cache keys *)

(** C8, as stated, fails: two keys with the same fields and values, in a
    different order, have different cache keys. *)
Lemma cache_key_ignores_field_order_counterexample :
  fieldwise_equal key_search key_search_reordered
  /\ cacheKeyFunction key_search <> cacheKeyFunction key_search_reordered.
Proof.
  split.
  - intros name. unfold prop, key_search, key_search_reordered. cbn [lookup_prop].
    destruct (String.eqb_spec "search" name), (String.eqb_spec "currentPage" name),
      (String.eqb_spec "pageSize" name); subst; try reflexivity; discriminate.
  - vm_compute. discriminate.
Qed.

(** C8, as amended: two keys have the same cache key if and only if they
    have the same fields with the same values in the same order.  Equal
    cache keys give field-wise equal keys; field-wise equal keys whose
    fields are ordered differently get different cache keys. *)
Theorem cache_key_identifies_key (k1 k2 : LoadKey) :
  (cacheKeyFunction k1 = cacheKeyFunction k2 <-> k1 = k2)
  /\ (cacheKeyFunction k1 = cacheKeyFunction k2 -> fieldwise_equal k1 k2)
  /\ (k1 <> k2 -> cacheKeyFunction k1 <> cacheKeyFunction k2).
Proof.
  assert (H : cacheKeyFunction k1 = cacheKeyFunction k2 -> k1 = k2).
  { unfold cacheKeyFunction. intros E. apply JSON_stringify_inj in E. now injection E. }
  split; [|split].
  - split; [exact H|]. now intros ->.
  - intros E name. now rewrite (H E).
  - intros Hne E. apply Hne, H, E.
Qed.

(** * Further properties of the resolver *)

Section MoreResolverFacts.

Lemma searchProducts_run (be : Backend) (params : LoadKey) (ap id : value) (w : World)
    (tok : Credential) (rows : list Row) :
  get ap "SPREADSHEET" = Return id ->
  authReply be (tokenCalls w) = Return tok ->
  sheetReply be (fetchCalls w) id tok spreadsheetRange = Return rows ->
  __searchProducts be params ap w =
  (settle (search_rows params rows),
   {| tokenCalls := S (tokenCalls w); fetchCalls := S (fetchCalls w) |}).
Proof.
  intros Hid Htok Hrows. unfold __searchProducts, getAuthToken, getSpreadSheetValues.
  rewrite Hid, Htok. simpl. fold spreadsheetRange. rewrite Hrows. reflexivity.
Qed.

Lemma tick_single_rejected (be : Backend) (ap : value) (key : LoadKey) (w : World)
    (e : JSError) :
  fst (__searchProducts be key ap w) = Rejected e ->
  fst (fst (tick [key] (constructor be ap) w)) = [Some (Fulfilled ONull)].
Proof. intros E. now rewrite tick_single, E. Qed.

Lemma id_among_spec (vs : list JValue) (row : Row) :
  id_among vs row = true <-> exists c, row !! 0%nat = Some c /\ JStr c ∈ vs.
Proof.
  unfold id_among, cell. rewrite existsb_exists. split.
  - intros (e & Hin & He). destruct (row !! 0%nat) as [c|]; simpl in He; [|discriminate He].
    destruct e; try discriminate He. apply String.eqb_eq in He as ->.
    exists s. split; [reflexivity|]. now apply list_elem_of_In.
  - intros (c & -> & Hin). exists (JStr c). split; [now apply list_elem_of_In|].
    simpl. apply String.eqb_refl.
Qed.

Lemma title_includes_throws (search : JValue) (row : Row) (e : JSError) :
  title_includes search row = Throw e -> e = TypeError.
Proof.
  unfold title_includes. destruct (row !! 1%nat); [destruct (to_string_throws search)|];
    intros E; first [discriminate E | now injection E].
Qed.

Lemma filterM_title_throws (search : JValue) (rows : list Row) (row : Row) :
  row ∈ rows -> row !! 1%nat = None ->
  filterM (title_includes search) rows = Throw TypeError.
Proof.
  intros Hin Hrow. induction rows as [|r rows IH]; [inversion Hin|]. simpl.
  destruct (title_includes search r) as [keep|e] eqn:Hr; simpl.
  - apply elem_of_cons in Hin as [->|Hin].
    + unfold title_includes in Hr. rewrite Hrow in Hr. discriminate Hr.
    + now rewrite (IH Hin).
  - now rewrite (title_includes_throws _ _ _ Hr).
Qed.

Lemma filter_branch_shape (params : LoadKey) (rows : list Row) (r : SearchResult) :
  filter_branch params rows = Return (OResult r) ->
  total r = length (products r)
  /\ page_offset params = Return (offset r)
  /\ limit r = prop params "pageSize".
Proof.
  unfold filter_branch. intros E.
  destruct (has_filter (prop params "filter")) as [[]|]; simpl in E; try discriminate E.
  destruct (has_eq (prop params "filter")) as [[]|]; simpl in E; try discriminate E.
  - destruct (operand (prop params "filter") "eq") as [key|]; simpl in E; [|discriminate E].
    destruct (page_offset params) as [off|]; simpl in E; [|discriminate E].
    destruct (find _ rows) as [product|]; [|discriminate E]. injection E as <-. auto.
  - destruct (has_in (prop params "filter")) as [[]|]; simpl in E; try discriminate E.
    destruct (operand (prop params "filter") "in") as [keys|]; simpl in E; [|discriminate E].
    destruct (filterM _ rows) as [kept|]; simpl in E; [|discriminate E].
    destruct (page_offset params) as [off|]; simpl in E; [|discriminate E].
    injection E as <-. simpl. now rewrite length_map.
Qed.

Lemma search_rows_shape (params : LoadKey) (rows : list Row) (r : SearchResult) :
  search_rows params rows = Return (OResult r) ->
  total r = length (products r)
  /\ page_offset params = Return (offset r)
  /\ limit r = prop params "pageSize".
Proof.
  unfold search_rows. intros E.
  destruct (prop params "search") as [search|]; [|now apply filter_branch_shape in E].
  destruct (truthy (Some search)); [|now apply filter_branch_shape in E].
  unfold search_branch in E.
  destruct (filterM _ rows) as [kept|]; simpl in E; [|discriminate E].
  destruct (page_offset params) as [off|]; simpl in E; [|discriminate E].
  injection E as <-. simpl. now rewrite length_map.
Qed.

Lemma search_rows_ext (params params' : LoadKey) (rows : list Row) :
  prop params' "search" = prop params "search" ->
  prop params' "filter" = prop params "filter" ->
  prop params' "currentPage" = prop params "currentPage" ->
  prop params' "pageSize" = prop params "pageSize" ->
  search_rows params' rows = search_rows params rows.
Proof.
  intros Hs Hf Hcp Hps. unfold search_rows. rewrite Hs.
  rewrite (filter_branch_ext params params' rows Hf Hcp Hps).
  destruct (prop params "search") as [search|]; [|reflexivity].
  now rewrite (search_branch_ext params params' search rows Hcp Hps).
Qed.

End MoreResolverFacts.

(** X1: a key with integer page numbers whose filter is [sku.in] alone,
    with an array of values, is answered with the rows whose identifier cell
    is one of the values, in the order of the table, and [total] is their
    number; when no row has one of the identifiers the answer is a result
    with [total] 0, not a failure. *)
Theorem sku_membership_rows_in_table_order (be : Backend) (ap id : value) (w : World)
    (tok : Credential) (rows : list Row) (params : LoadKey) (vs : list JValue)
    (cp ps : Z) :
  get ap "SPREADSHEET" = Return id ->
  authReply be (tokenCalls w) = Return tok ->
  sheetReply be (fetchCalls w) id tok spreadsheetRange = Return rows ->
  truthy (prop params "search") = false ->
  MembershipBySku params vs ->
  PageNumbers params cp ps ->
  let matches := List.filter (id_among vs) rows in
  fst (__searchProducts be params ap w) =
    Fulfilled (OResult {| total := length matches;
                          offset := Int (round_double (cp * ps));
                          limit := Some (JNum ps);
                          products := map to_product matches |})
  /\ (forall row : Row,
        row ∈ matches <-> row ∈ rows /\ exists c, row !! 0%nat = Some c /\ JStr c ∈ vs).
Proof.
  intros Hid Htok Hrows Hs [f o Hf Hsku Hurl Heq Hin] Hpage matches. split.
  - rewrite (searchProducts_fetched _ _ _ _ _ _ _ Hid Htok Hrows).
    rewrite (sku_membership_filter params f o vs rows Hs Hf Hsku Hurl Heq Hin).
    now rewrite (page_offset_numbers _ _ _ Hpage), (page_size _ _ _ Hpage).
  - intros row. subst matches.
    rewrite !list_elem_of_In, filter_In, <- list_elem_of_In, id_among_spec. reflexivity.
Qed.

Lemma sku_membership_rows_in_table_order_witness :
  get action_parameters "SPREADSHEET" = Return (Some (JStr "sheet-1"))
  /\ authReply good_backend (tokenCalls w0) = Return "token"%string
  /\ sheetReply good_backend (fetchCalls w0) (Some (JStr "sheet-1")) "token" spreadsheetRange
     = Return sheet
  /\ truthy (prop key_in "search") = false
  /\ MembershipBySku key_in [JStr "S2"; JStr "S1"]
  /\ PageNumbers key_in 0 5
  /\ fst (__searchProducts good_backend key_in action_parameters w0)
     = Fulfilled (OResult result_in).
Proof.
  assert (Hm : MembershipBySku key_in [JStr "S2"; JStr "S1"]).
  { eapply (membership_by_sku key_in); reflexivity. }
  assert (Hpage : PageNumbers key_in 0 5)
    by (constructor; [reflexivity | reflexivity | vm_compute; discriminate
                     | vm_compute; discriminate]).
  refine (conj eq_refl (conj eq_refl (conj eq_refl (conj eq_refl (conj Hm
            (conj Hpage _)))))).
  exact (proj1 (sku_membership_rows_in_table_order good_backend action_parameters
                  (Some (JStr "sheet-1")) w0 "token" sheet key_in [JStr "S2"; JStr "S1"]
                  0 5 eq_refl eq_refl eq_refl eq_refl Hm Hpage)).
Defined.

(** X2: a key without search whose [filter] is absent, or names neither
    [sku] nor [url_key], is not refused: the token is acquired and the table
    fetched as for any key, no outcome is built, and the promise is
    fulfilled with [undefined]. *)
Theorem no_criteria_resolves_to_undefined (be : Backend) (ap id : value) (w : World)
    (tok : Credential) (rows : list Row) (params : LoadKey) :
  get ap "SPREADSHEET" = Return id ->
  authReply be (tokenCalls w) = Return tok ->
  sheetReply be (fetchCalls w) id tok spreadsheetRange = Return rows ->
  truthy (prop params "search") = false ->
  NoCriteria params ->
  __searchProducts be params ap w =
    (Fulfilled OUndefined,
     {| tokenCalls := S (tokenCalls w); fetchCalls := S (fetchCalls w) |})
  /\ fst (fst (tick [params] (constructor be ap) w)) = [Some (Fulfilled OUndefined)].
Proof.
  intros Hid Htok Hrows Hs Hn.
  assert (E : search_rows params rows = Return OUndefined).
  { rewrite (search_rows_no_search _ _ Hs). unfold filter_branch, has_filter.
    destruct Hn as [Hf|f Hf Hsku Hurl].
    - now rewrite Hf.
    - rewrite Hf. simpl. now rewrite Hsku, Hurl. }
  assert (R : __searchProducts be params ap w =
              (Fulfilled OUndefined,
               {| tokenCalls := S (tokenCalls w); fetchCalls := S (fetchCalls w) |})).
  { rewrite (searchProducts_run _ _ _ _ _ _ _ Hid Htok Hrows). now rewrite E. }
  split; [exact R|]. now rewrite tick_single, R.
Qed.

Lemma no_criteria_resolves_to_undefined_witness :
  get action_parameters "SPREADSHEET" = Return (Some (JStr "sheet-1"))
  /\ authReply good_backend (tokenCalls w0) = Return "token"%string
  /\ sheetReply good_backend (fetchCalls w0) (Some (JStr "sheet-1")) "token" spreadsheetRange
     = Return sheet
  /\ truthy (prop key_empty_filter "search") = false
  /\ NoCriteria key_empty_filter
  /\ __searchProducts good_backend key_empty_filter action_parameters w0
     = (Fulfilled OUndefined, {| tokenCalls := 1; fetchCalls := 1 |})
  /\ fst (fst (tick [key_empty_filter] (constructor good_backend action_parameters) w0))
     = [Some (Fulfilled OUndefined)].
Proof.
  assert (Hn : NoCriteria key_empty_filter).
  { eapply (no_sku_no_url_key key_empty_filter); reflexivity. }
  refine (conj eq_refl (conj eq_refl (conj eq_refl (conj eq_refl (conj Hn _))))).
  exact (no_criteria_resolves_to_undefined good_backend action_parameters
           (Some (JStr "sheet-1")) w0 "token" sheet key_empty_filter
           eq_refl eq_refl eq_refl eq_refl Hn).
Defined.

(** X3: without action parameters ([undefined] or [null]) reading
    [SPREADSHEET] throws before the backend is contacted: every resolution
    rejects with a [TypeError] and leaves the world as it was, and a whole
    batch is answered with [null]s without a single token or fetch. *)
Theorem missing_action_parameters_skip_backend (be : Backend) (ap : value)
    (keys : list LoadKey) (w : World) :
  ap = undefined \/ ap = Some JNull ->
  (forall params : LoadKey, __searchProducts be params ap w = (Rejected TypeError, w))
  /\ loadingFunction be ap keys w = (map (fun _ => Fulfilled ONull) keys, w).
Proof.
  intros Hap.
  assert (Hget : get ap "SPREADSHEET" = Throw TypeError) by (destruct Hap as [-> | ->]; reflexivity).
  assert (R : forall (params : LoadKey) (w' : World),
             __searchProducts be params ap w' = (Rejected TypeError, w')).
  { intros params w'. unfold __searchProducts. now rewrite Hget. }
  split; [intros params; apply R|].
  induction keys as [|key rest IH]; [reflexivity|].
  rewrite loadingFunction_cons, R. simpl. now rewrite IH.
Qed.

Lemma missing_action_parameters_skip_backend_witness :
  (undefined = undefined \/ undefined = Some JNull)
  /\ loadingFunction good_backend undefined [key_search; key_eq_S2] w0
     = ([Fulfilled ONull; Fulfilled ONull], w0).
Proof.
  assert (H : undefined = undefined \/ undefined = Some JNull) by (left; reflexivity).
  refine (conj H _).
  exact (proj2 (missing_action_parameters_skip_backend good_backend undefined
                  [key_search; key_eq_S2] w0 H)).
Defined.

(** X4: a failure of the backend rejects the resolution with the error of
    the backend.  When the token is refused the table is not fetched; when
    the token is granted and the fetch fails both calls have been made. *)
Theorem backend_failure_rejects_with_its_error (be : Backend) (ap id : value) (w : World)
    (params : LoadKey) (e : JSError) :
  get ap "SPREADSHEET" = Return id ->
  (authReply be (tokenCalls w) = Throw e ->
     __searchProducts be params ap w =
       (Rejected e, {| tokenCalls := S (tokenCalls w); fetchCalls := fetchCalls w |}))
  /\ (forall tok : Credential,
        authReply be (tokenCalls w) = Return tok ->
        sheetReply be (fetchCalls w) id tok spreadsheetRange = Throw e ->
        __searchProducts be params ap w =
          (Rejected e, {| tokenCalls := S (tokenCalls w); fetchCalls := S (fetchCalls w) |})).
Proof.
  intros Hid. unfold __searchProducts, getAuthToken, getSpreadSheetValues. rewrite Hid.
  split.
  - intros Htok. now rewrite Htok.
  - intros tok Htok Hrows. rewrite Htok. simpl. fold spreadsheetRange. now rewrite Hrows.
Qed.

Lemma backend_failure_rejects_with_its_error_witness :
  get action_parameters "SPREADSHEET" = Return (Some (JStr "sheet-1"))
  /\ authReply refusing_backend (tokenCalls w0) = Throw (BackendError "unavailable")
  /\ __searchProducts refusing_backend key_search action_parameters w0
     = (Rejected (BackendError "unavailable"), {| tokenCalls := 1; fetchCalls := 0 |}).
Proof.
  refine (conj eq_refl (conj eq_refl _)).
  exact (proj1 (backend_failure_rejects_with_its_error refusing_backend action_parameters
                  (Some (JStr "sheet-1")) w0 key_search (BackendError "unavailable") eq_refl)
           eq_refl).
Defined.

(** X5: a search needs the title cell of every row.  When some row of the
    table has none, a key with a non-empty [search] string is not answered
    with the rows that match: the resolution throws a [TypeError] and [load]
    gives [null]. *)
Theorem search_rejects_on_row_without_title (be : Backend) (ap id : value) (w : World)
    (tok : Credential) (rows : list Row) (params : LoadKey) (s : string) (row : Row) :
  get ap "SPREADSHEET" = Return id ->
  authReply be (tokenCalls w) = Return tok ->
  sheetReply be (fetchCalls w) id tok spreadsheetRange = Return rows ->
  prop params "search" = Some (JStr s) -> s <> ""%string ->
  row ∈ rows -> row !! 1%nat = None ->
  fst (__searchProducts be params ap w) = Rejected TypeError
  /\ fst (fst (tick [params] (constructor be ap) w)) = [Some (Fulfilled ONull)].
Proof.
  intros Hid Htok Hrows Hs Hne Hin Hrow.
  assert (R : fst (__searchProducts be params ap w) = Rejected TypeError).
  { rewrite (searchProducts_fetched _ _ _ _ _ _ _ Hid Htok Hrows).
    rewrite (search_rows_search _ _ _ Hs Hne). unfold search_branch.
    now rewrite (filterM_title_throws (JStr s) rows row Hin Hrow). }
  split; [exact R|]. eapply tick_single_rejected, R.
Qed.

Lemma search_rejects_on_row_without_title_witness :
  get action_parameters "SPREADSHEET" = Return (Some (JStr "sheet-1"))
  /\ authReply short_backend (tokenCalls w0) = Return "token"%string
  /\ sheetReply short_backend (fetchCalls w0) (Some (JStr "sheet-1")) "token" spreadsheetRange
     = Return sheet_short
  /\ prop key_search "search" = Some (JStr "Sh") /\ "Sh"%string <> ""%string
  /\ ["S9"%string] ∈ sheet_short /\ ["S9"%string] !! 1%nat = None
  /\ fst (__searchProducts short_backend key_search action_parameters w0) = Rejected TypeError
  /\ fst (fst (tick [key_search] (constructor short_backend action_parameters) w0))
     = [Some (Fulfilled ONull)].
Proof.
  assert (Hne : "Sh"%string <> ""%string) by discriminate.
  assert (Hin : ["S9"%string] ∈ sheet_short) by (right; left).
  refine (conj eq_refl (conj eq_refl (conj eq_refl (conj eq_refl (conj Hne
            (conj Hin (conj eq_refl _))))))).
  exact (search_rejects_on_row_without_title short_backend action_parameters
           (Some (JStr "sheet-1")) w0 "token" sheet_short key_search "Sh" ["S9"%string]
           eq_refl eq_refl eq_refl eq_refl Hne Hin eq_refl).
Defined.

(** X6: whatever the key and the backend, a search result that a resolution
    is fulfilled with has [total] equal to the number of products it
    carries (no page is cut out of them) and [limit] equal to the key's
    [pageSize] as it was given; when the key's page numbers are integers,
    [offset] is their product. *)
Theorem total_counts_products (be : Backend) (params : LoadKey) (ap : value) (w : World)
    (r : SearchResult) :
  fst (__searchProducts be params ap w) = Fulfilled (OResult r) ->
  total r = length (products r)
  /\ limit r = prop params "pageSize"
  /\ (forall cp ps : Z,
        PageNumbers params cp ps -> offset r = Int (round_double (cp * ps))).
Proof.
  unfold __searchProducts. intros E.
  destruct (get ap "SPREADSHEET"); [|discriminate E].
  destruct (getAuthToken be w) as [[auth|] w1]; [|discriminate E].
  destruct (getSpreadSheetValues _ _ _ _ _) as [[values|] w2]; [|discriminate E].
  simpl in E. destruct (search_rows params values) as [o|] eqn:Hs; [|discriminate E].
  simpl in E. injection E as ->.
  destruct (search_rows_shape _ _ _ Hs) as (Ht & Ho & Hl).
  split; [exact Ht|]. split; [exact Hl|].
  intros cp ps Hpage. rewrite (page_offset_numbers _ _ _ Hpage) in Ho. now injection Ho.
Qed.

Lemma total_counts_products_witness :
  fst (__searchProducts good_backend key_search action_parameters w0)
  = Fulfilled (OResult result_search)
  /\ PageNumbers key_search 0 10
  /\ total result_search = length (products result_search)
  /\ limit result_search = prop key_search "pageSize"
  /\ offset result_search = Int (round_double (0 * 10)).
Proof.
  assert (Hpage : PageNumbers key_search 0 10)
    by (constructor; [reflexivity | reflexivity | vm_compute; discriminate
                     | vm_compute; discriminate]).
  destruct (total_counts_products good_backend key_search action_parameters w0
              result_search eq_refl) as (Ht & Hl & Ho).
  exact (conj eq_refl (conj Hpage (conj Ht (conj Hl (Ho 0 10 Hpage))))).
Defined.

(** X7: a resolution reads four fields of its key, [search], [filter],
    [currentPage] and [pageSize].  Two keys that agree on them are resolved
    alike, outcome and backend calls; in particular [categoryId] is never
    looked at. *)
Theorem resolution_reads_four_fields (be : Backend) (ap : value) (w : World)
    (params params' : LoadKey) :
  prop params' "search" = prop params "search" ->
  prop params' "filter" = prop params "filter" ->
  prop params' "currentPage" = prop params "currentPage" ->
  prop params' "pageSize" = prop params "pageSize" ->
  __searchProducts be params' ap w = __searchProducts be params ap w.
Proof.
  intros Hs Hf Hcp Hps. apply searchProducts_ext. intros rows.
  now apply search_rows_ext.
Qed.

Lemma resolution_reads_four_fields_witness :
  prop key_search_category "search" = prop key_search "search"
  /\ prop key_search_category "filter" = prop key_search "filter"
  /\ prop key_search_category "currentPage" = prop key_search "currentPage"
  /\ prop key_search_category "pageSize" = prop key_search "pageSize"
  /\ __searchProducts good_backend key_search_category action_parameters w0
     = __searchProducts good_backend key_search action_parameters w0.
Proof.
  refine (conj eq_refl (conj eq_refl (conj eq_refl (conj eq_refl _)))).
  exact (resolution_reads_four_fields good_backend action_parameters w0 key_search
           key_search_category eq_refl eq_refl eq_refl eq_refl).
Defined.

(** X8: the backend is called before the key is looked at, so the calls a
    resolution makes are the same for every key: with the action parameters
    present it asks for one token, and fetches the table once if the token
    is granted, whether the key is well formed or not. *)
Theorem backend_calls_do_not_depend_on_key (be : Backend) (ap : value) (w : World)
    (params params' : LoadKey) :
  snd (__searchProducts be params ap w) = snd (__searchProducts be params' ap w)
  /\ (forall id : value,
        get ap "SPREADSHEET" = Return id ->
        snd (__searchProducts be params ap w) =
        {| tokenCalls := S (tokenCalls w);
           fetchCalls := if token_granted be (tokenCalls w) then S (fetchCalls w)
                         else fetchCalls w |}).
Proof.
  rewrite !searchProducts_world. split; [reflexivity|]. intros id Hid. now rewrite Hid.
Qed.

(** X9: the resolver answers position by position.  It returns as many
    outcomes as it was given keys, and the outcome at position [i] is the
    resolution of the key at position [i], with a rejection turned into
    [null]. *)
Theorem resolver_outcomes_are_positional (be : Backend) (ap : value) (keys : list LoadKey)
    (w : World) :
  length (fst (loadingFunction be ap keys w)) = length keys
  /\ forall (i : nat) (key : LoadKey),
       keys !! i = Some key ->
       fst (loadingFunction be ap keys w) !! i =
       Some (catch_null (fst (__searchProducts be key ap (world_at be ap keys w i)))).
Proof.
  split; [apply loadingFunction_length|].
  intros i key Hi. rewrite loadingFunction_lookup. unfold resolution. now rewrite Hi.
Qed.

(** X10: a key without search whose filter has a [url_key] that is not an
    exact match, and no [sku], is never answered, whatever the table and
    whatever [url_key] holds: the test of the membership branch reads [in]
    of the absent [sku], the resolution throws a [TypeError] and [load] gives
    [null]. *)
Theorem url_key_without_eq_always_throws (be : Backend) (ap id : value) (w : World)
    (tok : Credential) (rows : list Row) (params : LoadKey) (f o : list (string * JValue)) :
  get ap "SPREADSHEET" = Return id ->
  authReply be (tokenCalls w) = Return tok ->
  sheetReply be (fetchCalls w) id tok spreadsheetRange = Return rows ->
  truthy (prop params "search") = false ->
  prop params "filter" = Some (JObj f) ->
  lookup_prop "sku" f = None ->
  lookup_prop "url_key" f = Some (JObj o) ->
  truthy (lookup_prop "eq" o) = false ->
  fst (__searchProducts be params ap w) = Rejected TypeError
  /\ fst (fst (tick [params] (constructor be ap) w)) = [Some (Fulfilled ONull)].
Proof.
  intros Hid Htok Hrows Hs Hf Hsku Hurl Heq.
  assert (R : fst (__searchProducts be params ap w) = Rejected TypeError).
  { rewrite (searchProducts_fetched _ _ _ _ _ _ _ Hid Htok Hrows).
    rewrite (search_rows_no_search _ _ Hs).
    unfold filter_branch, has_filter, has_eq, has_in. rewrite Hf. simpl.
    rewrite Hsku, Hurl. simpl. rewrite Heq. reflexivity. }
  split; [exact R|]. eapply tick_single_rejected, R.
Qed.

Lemma url_key_without_eq_always_throws_witness :
  get action_parameters "SPREADSHEET" = Return (Some (JStr "sheet-1"))
  /\ authReply good_backend (tokenCalls w0) = Return "token"%string
  /\ sheetReply good_backend (fetchCalls w0) (Some (JStr "sheet-1")) "token" spreadsheetRange
     = Return sheet
  /\ truthy (prop key_url_key_in "search") = false
  /\ prop key_url_key_in "filter"
     = Some (JObj [("url_key"%string, JObj [("in"%string, JArr [JStr "S1"])])])
  /\ fst (__searchProducts good_backend key_url_key_in action_parameters w0)
     = Rejected TypeError.
Proof.
  refine (conj eq_refl (conj eq_refl (conj eq_refl (conj eq_refl (conj eq_refl _))))).
  exact (proj1 (url_key_without_eq_always_throws good_backend action_parameters
                  (Some (JStr "sheet-1")) w0 "token" sheet key_url_key_in
                  [("url_key"%string, JObj [("in"%string, JArr [JStr "S1"])])]
                  [("in"%string, JArr [JStr "S1"])]
                  eq_refl eq_refl eq_refl eq_refl eq_refl eq_refl eq_refl eq_refl)).
Defined.

(** X11: [url_key.eq] is honoured only when the key has no [sku] filter.
    Beside a [sku] filter that has no [eq] the exact-match branch is entered
    on account of [url_key.eq], but the value looked up is [sku.eq], which
    is [undefined]: in a table whose rows all have an identifier no row is
    found, also when one has the identifier given by [url_key.eq], and the
    resolution throws. *)
Theorem url_key_eq_beside_sku_looks_up_undefined (be : Backend) (ap id : value) (w : World)
    (tok : Credential) (rows : list Row) (params : LoadKey)
    (f o u : list (string * JValue)) (v : string) :
  get ap "SPREADSHEET" = Return id ->
  authReply be (tokenCalls w) = Return tok ->
  sheetReply be (fetchCalls w) id tok spreadsheetRange = Return rows ->
  truthy (prop params "search") = false ->
  prop params "filter" = Some (JObj f) ->
  lookup_prop "sku" f = Some (JObj o) ->
  lookup_prop "eq" o = None ->
  lookup_prop "url_key" f = Some (JObj u) ->
  lookup_prop "eq" u = Some (JStr v) -> v <> ""%string ->
  Forall (fun row : Row => is_Some (row !! 0%nat)) rows ->
  fst (__searchProducts be params ap w) = Rejected TypeError
  /\ fst (fst (tick [params] (constructor be ap) w)) = [Some (Fulfilled ONull)].
Proof.
  intros Hid Htok Hrows Hs Hf Hsku Heq Hurl Hueq Hne Hids.
  pose proof (truthy_nonempty v Hne) as Hv.
  assert (Hfind : find (fun row : Row => strict_eq (cell row 0) None) rows = None).
  { clear Hrows. induction Hids as [|row rows [c Hc] _ IH]; [reflexivity|]. simpl.
    unfold cell at 1. rewrite Hc. simpl. exact IH. }
  assert (R : fst (__searchProducts be params ap w) = Rejected TypeError).
  { rewrite (searchProducts_fetched _ _ _ _ _ _ _ Hid Htok Hrows).
    rewrite (search_rows_no_search _ _ Hs).
    unfold filter_branch, has_filter, has_eq, operand. rewrite Hf. simpl.
    rewrite Hsku. simpl. rewrite Heq, Hurl. simpl. rewrite Hueq, Hv. simpl.
    rewrite Hfind. destruct (page_offset params) as [off|e] eqn:Ho; simpl; [reflexivity|].
    now rewrite (page_offset_throws _ _ Ho). }
  split; [exact R|]. eapply tick_single_rejected, R.
Qed.

Lemma url_key_eq_beside_sku_looks_up_undefined_witness :
  get action_parameters "SPREADSHEET" = Return (Some (JStr "sheet-1"))
  /\ authReply good_backend (tokenCalls w0) = Return "token"%string
  /\ sheetReply good_backend (fetchCalls w0) (Some (JStr "sheet-1")) "token" spreadsheetRange
     = Return sheet
  /\ truthy (prop key_in_and_url_key_eq "search") = false
  /\ "S2"%string <> ""%string
  /\ Forall (fun row : Row => is_Some (row !! 0%nat)) sheet
  /\ fst (__searchProducts good_backend key_in_and_url_key_eq action_parameters w0)
     = Rejected TypeError.
Proof.
  assert (Hne : "S2"%string <> ""%string) by discriminate.
  assert (Hids : Forall (fun row : Row => is_Some (row !! 0%nat)) sheet)
    by (repeat constructor; simpl; eauto).
  refine (conj eq_refl (conj eq_refl (conj eq_refl (conj eq_refl (conj Hne (conj Hids _)))))).
  exact (proj1 (url_key_eq_beside_sku_looks_up_undefined good_backend action_parameters
                  (Some (JStr "sheet-1")) w0 "token" sheet key_in_and_url_key_eq
                  [("sku"%string, JObj [("in"%string, JArr [JStr "S1"])]);
                   ("url_key"%string, JObj [("eq"%string, JStr "S2")])]
                  [("in"%string, JArr [JStr "S1"])]
                  [("eq"%string, JStr "S2")] "S2"
                  eq_refl eq_refl eq_refl eq_refl eq_refl eq_refl eq_refl eq_refl eq_refl
                  Hne Hids)).
Defined.

(** X12: an exact match does not need the other cells of the row it finds.
    When the key has integer page numbers and the first row with the
    identifier has nothing but the identifier, the resolution succeeds with
    one product whose [title], [price.amount] and [image_url] are
    [undefined] and whose description ends in ["undefined"]. *)
Theorem exact_match_on_bare_row (be : Backend) (ap id : value) (w : World)
    (tok : Credential) (pre post : list Row) (params : LoadKey) (v : string)
    (cp ps : Z) :
  get ap "SPREADSHEET" = Return id ->
  authReply be (tokenCalls w) = Return tok ->
  sheetReply be (fetchCalls w) id tok spreadsheetRange = Return (pre ++ [v] :: post) ->
  truthy (prop params "search") = false ->
  ExactMatch params v -> v <> ""%string ->
  PageNumbers params cp ps ->
  Forall (fun r : Row => r !! 0%nat <> Some v) pre ->
  fst (__searchProducts be params ap w) =
    Fulfilled (OResult {| total := 1;
                          offset := Int (round_double (cp * ps));
                          limit := Some (JNum ps);
                          products := [bare_product v] |}).
Proof.
  intros Hid Htok Hrows Hs Hm Hne Hpage Hpre.
  rewrite (searchProducts_fetched _ _ _ _ _ _ _ Hid Htok Hrows).
  rewrite (exact_match_rows _ _ _ Hs Hm Hne), (find_first _ pre post [v]).
  - now rewrite (page_offset_numbers _ _ _ Hpage), (page_size _ _ _ Hpage).
  - eapply Forall_impl; [exact Hpre|]. intros r. apply has_id_false.
  - now apply has_id_true.
Qed.

Lemma exact_match_on_bare_row_witness :
  get action_parameters "SPREADSHEET" = Return (Some (JStr "sheet-1"))
  /\ authReply short_backend (tokenCalls w0) = Return "token"%string
  /\ sheetReply short_backend (fetchCalls w0) (Some (JStr "sheet-1")) "token" spreadsheetRange
     = Return ([ ["S1"; "Shirt"; "apparel"; "19.99"; "img1"]%string ] ++ ["S9"%string] :: [])
  /\ truthy (prop key_eq_S9 "search") = false
  /\ ExactMatch key_eq_S9 "S9" /\ "S9"%string <> ""%string
  /\ PageNumbers key_eq_S9 0 10
  /\ Forall (fun r : Row => r !! 0%nat <> Some "S9"%string)
       [ ["S1"; "Shirt"; "apparel"; "19.99"; "img1"]%string ]
  /\ fst (__searchProducts short_backend key_eq_S9 action_parameters w0)
     = Fulfilled (OResult {| total := 1; offset := Int 0; limit := Some (JNum 10);
                             products := [bare_product "S9"] |}).
Proof.
  assert (Hm : ExactMatch key_eq_S9 "S9").
  { eapply (exact_by_sku key_eq_S9 "S9"); reflexivity. }
  assert (Hne : "S9"%string <> ""%string) by discriminate.
  assert (Hpre : Forall (fun r : Row => r !! 0%nat <> Some "S9"%string)
                   [ ["S1"; "Shirt"; "apparel"; "19.99"; "img1"]%string ])
    by (repeat constructor; discriminate).
  assert (Hpage : PageNumbers key_eq_S9 0 10)
    by (constructor; [reflexivity | reflexivity | vm_compute; discriminate
                     | vm_compute; discriminate]).
  refine (conj eq_refl (conj eq_refl (conj eq_refl (conj eq_refl (conj Hm (conj Hne
            (conj Hpage (conj Hpre _)))))))).
  exact (exact_match_on_bare_row short_backend action_parameters (Some (JStr "sheet-1")) w0
           "token" [ ["S1"; "Shirt"; "apparel"; "19.99"; "img1"]%string ] [] key_eq_S9 "S9"
           0 10 eq_refl eq_refl eq_refl eq_refl Hm Hne Hpage Hpre).
Defined.

(** * Further properties of the loader *)

Section MoreClassFacts.

Lemma tick_cached_single (this : ProductsLoader) (w : World) (k : LoadKey) (p : nat) :
  Ready this ->
  cacheMap (loader this) !! cacheKeyFunction k = Some p ->
  fst (fst (tick [k] this w)) = [settled this p] /\ snd (tick [k] this w) = w.
Proof.
  intros (_ & Hb & _) Hc. rewrite tick_unfold, flush_unfold, load_all_unfold. simpl.
  unfold DataLoader_load. rewrite Hc. simpl. unfold DataLoader_dispatch. rewrite Hb.
  auto.
Qed.

Lemma flush_world (this : ProductsLoader) (w : World) :
  snd (flush this w) =
  snd (loadingFunction (backend this) (actionParameters this)
         (map fst (batch (loader this))) w).
Proof.
  rewrite flush_unfold. simpl. unfold DataLoader_dispatch.
  destruct (batch (loader this)) as [|e es]; [reflexivity|].
  now destruct (loadingFunction _ _ _ w).
Qed.

Lemma load_batch_origin (key : LoadKey) (dl : DataLoader) (e : LoadKey * nat) :
  e ∈ batch (snd (DataLoader_load cacheKeyFunction key dl)) ->
  e ∈ batch dl \/ fst e = key.
Proof.
  unfold DataLoader_load. destruct (cacheMap dl !! cacheKeyFunction key); simpl; [auto|].
  intros [H|H]%elem_of_app; [auto|]. apply list_elem_of_singleton in H as ->. auto.
Qed.

Lemma load_all_batch_origin (keys : list LoadKey) (dl : DataLoader) (e : LoadKey * nat) :
  e ∈ batch (snd (DataLoader_load_all cacheKeyFunction keys dl)) ->
  e ∈ batch dl \/ fst e ∈ keys.
Proof.
  revert dl. induction keys as [|key rest IH]; intros dl H; [auto|].
  rewrite load_all_cons in H. simpl in H. destruct (IH _ H) as [H'|H'].
  - destruct (load_batch_origin _ _ _ H') as [H''| ->]; [auto|]. right. left.
  - right. now right.
Qed.

Lemma load_all_batch_length (keys : list LoadKey) (dl : DataLoader) :
  (length (batch (snd (DataLoader_load_all cacheKeyFunction keys dl)))
   <= length (batch dl) + length keys)%nat.
Proof.
  revert dl. induction keys as [|key rest IH]; intros dl; [simpl; lia|].
  rewrite load_all_cons. simpl. etransitivity; [apply IH|].
  unfold DataLoader_load. destruct (cacheMap dl !! cacheKeyFunction key); simpl; [lia|].
  rewrite length_app. simpl. lia.
Qed.

Lemma load_all_new_batch_uncached (keys : list LoadKey) (dl : DataLoader) (k : LoadKey)
    (p : nat) :
  batch dl = [] ->
  (k, p) ∈ batch (snd (DataLoader_load_all cacheKeyFunction keys dl)) ->
  cacheMap dl !! cacheKeyFunction k = None.
Proof.
  intros Hb He.
  assert (G : forall keys dl,
             (k, p) ∈ batch (snd (DataLoader_load_all cacheKeyFunction keys dl)) ->
             (k, p) ∈ batch dl \/ cacheMap dl !! cacheKeyFunction k = None).
  { clear. induction keys as [|key rest IH]; intros dl H; [auto|].
    rewrite load_all_cons in H. simpl in H. destruct (IH _ H) as [H'|H'].
    - unfold DataLoader_load in H'.
      destruct (cacheMap dl !! cacheKeyFunction key) eqn:Hc; simpl in H'; [auto|].
      apply elem_of_app in H' as [H'|H']; [auto|].
      apply list_elem_of_singleton in H'. injection H' as -> _. auto.
    - right. destruct (cacheMap dl !! cacheKeyFunction k) as [q|] eqn:Hq; [|reflexivity].
      rewrite (load_cache_mono cacheKeyFunction key dl _ _ Hq) in H'. discriminate H'. }
  destruct (G keys dl He) as [H|H]; [|exact H]. rewrite Hb in H. inversion H.
Qed.

Lemma load_promises_mono (key : LoadKey) (dl : DataLoader) (p : nat)
    (x : option Settled) :
  promises dl !! p = Some x ->
  promises (snd (DataLoader_load cacheKeyFunction key dl)) !! p = Some x.
Proof.
  unfold DataLoader_load. destruct (cacheMap dl !! cacheKeyFunction key); simpl; [auto|].
  intros H. rewrite lookup_app_l; [exact H|]. eapply lookup_lt_Some, H.
Qed.

Lemma load_all_promises_mono (keys : list LoadKey) (dl : DataLoader) (p : nat)
    (x : option Settled) :
  promises dl !! p = Some x ->
  promises (snd (DataLoader_load_all cacheKeyFunction keys dl)) !! p = Some x.
Proof.
  revert dl. induction keys as [|key rest IH]; intros dl H; [exact H|].
  rewrite load_all_cons. simpl. apply IH, load_promises_mono, H.
Qed.

Lemma settled_Some (this : ProductsLoader) (p : nat) (s : Settled) :
  settled this p = Some s <-> promises (loader this) !! p = Some (Some s).
Proof.
  unfold settled. destruct (promises (loader this) !! p) as [[s'|]|]; simpl;
    split; congruence.
Qed.

(** A tick leaves a settled promise of the cache as it is: its key is not
    in the batch, so the flush does not touch the promise. *)
Lemma tick_keeps_settled (keys : list LoadKey) (this : ProductsLoader) (w : World)
    (ck : string) (p : nat) (s : Settled) :
  Ready this ->
  cacheMap (loader this) !! ck = Some p ->
  settled this p = Some s ->
  cacheMap (loader (snd (fst (tick keys this w)))) !! ck = Some p
  /\ settled (snd (fst (tick keys this w))) p = Some s.
Proof.
  intros (HI & Hb & _) Hc Hs. apply settled_Some in Hs.
  rewrite tick_unfold, flush_unfold, load_all_unfold. simpl.
  set (dl1 := snd (DataLoader_load_all cacheKeyFunction keys (loader this))).
  assert (HI1 : Inv cacheKeyFunction dl1) by apply Inv_load_all, HI.
  assert (Hc1 : cacheMap dl1 !! ck = Some p) by apply load_all_cache_mono, Hc.
  split; [now rewrite dispatch_cache|].
  apply settled_Some. simpl. rewrite dispatch_promises, resolve_batch_other.
  - apply load_all_promises_mono, Hs.
  - intros Hin. apply list_elem_of_fmap in Hin as ([k' p'] & E & He). simpl in E. subst p'.
    pose proof (inv_batch_cached _ _ HI1 k' p He) as Hk'.
    pose proof (inv_cache_inj _ _ HI1 _ _ _ Hk' Hc1) as Heq.
    pose proof (load_all_new_batch_uncached keys (loader this) k' p Hb He) as Hnone.
    rewrite Heq in Hnone. congruence.
Qed.

Lemma run_ticks_keeps_settled (later : list (list LoadKey)) (this : ProductsLoader)
    (w : World) (ck : string) (p : nat) (s : Settled) :
  Ready this ->
  cacheMap (loader this) !! ck = Some p ->
  settled this p = Some s ->
  cacheMap (loader (fst (run_ticks later this w))) !! ck = Some p
  /\ settled (fst (run_ticks later this w)) p = Some s.
Proof.
  revert this w. induction later as [|keys later IH]; intros this w HR Hc Hs; [auto|].
  rewrite run_ticks_cons.
  destruct (tick_keeps_settled keys this w ck p s HR Hc Hs) as [Hc1 Hs1].
  apply IH; [apply Ready_tick, HR|exact Hc1|exact Hs1].
Qed.

(** A caller whose key is cached with a settled promise sees what the
    promise had settled to. *)
Lemma tick_cached_lookup (calls : list LoadKey) (this : ProductsLoader) (w : World)
    (a : nat) (k : LoadKey) (p : nat) (s : Settled) :
  Ready this ->
  cacheMap (loader this) !! cacheKeyFunction k = Some p ->
  settled this p = Some s ->
  calls !! a = Some k ->
  fst (fst (tick calls this w)) !! a = Some (Some s).
Proof.
  intros HR Hc Hs Ha.
  destruct (tick_settles calls this w a k HR Ha) as (p' & s' & _ & Hc' & Hout & Hs').
  destruct (tick_keeps_settled calls this w _ p s HR Hc Hs) as [_ Hs1].
  rewrite tick_unfold in Hs1. simpl in Hs1.
  rewrite load_all_unfold in Hc'. simpl in Hc'.
  rewrite (load_all_cache_mono cacheKeyFunction calls _ _ _ Hc) in Hc'.
  injection Hc' as <-. rewrite Hout. congruence.
Qed.

End MoreClassFacts.

(** X13: an outcome is kept for the life of the loader, a failure like a
    result.  Once a key has been loaded in a tick, then after any number of
    further ticks, in any later tick and whatever is loaded beside it, no
    key with its cache key is handed to the resolver, every call of [load]
    with the key gives the outcome the key had in the first tick, and
    loading it alone makes no call on the backend; a key that failed stays
    [null] and is not retried. *)
Theorem cached_outcome_is_reused (be : Backend) (ap : value) (history : list (list LoadKey))
    (w0 : World) (calls : list LoadKey) (later : list (list LoadKey))
    (calls' : list LoadKey) (k : LoadKey) :
  let this := fst (run_ticks history (constructor be ap) w0) in
  let w := snd (run_ticks history (constructor be ap) w0) in
  let this1 := snd (fst (tick calls this w)) in
  let w1 := snd (tick calls this w) in
  let this2 := fst (run_ticks later this1 w1) in
  let w2 := snd (run_ticks later this1 w1) in
  k ∈ calls ->
  (forall k' : LoadKey,
      k' ∈ batch_keys calls' this2 -> cacheKeyFunction k' <> cacheKeyFunction k)
  /\ snd (tick [k] this2 w2) = w2
  /\ exists s : Settled,
       (forall a : nat,
           calls !! a = Some k -> fst (fst (tick calls this w)) !! a = Some (Some s))
       /\ (forall a : nat,
             calls' !! a = Some k ->
             fst (fst (tick calls' this2 w2)) !! a = Some (Some s)).
Proof.
  intros this w this1 w1 this2 w2 Hin.
  assert (HR : Ready this) by apply Ready_run_ticks, Ready_constructor.
  assert (HR1 : Ready this1) by apply Ready_tick, HR.
  assert (HR2 : Ready this2) by apply Ready_run_ticks, HR1.
  apply list_elem_of_lookup in Hin as [a0 Ha0].
  destruct (tick_settles calls this w a0 k HR Ha0) as (p & s & _ & Hc & _ & Hs).
  assert (E1 : this1 = fst (flush (snd (load_all calls this)) w)).
  { unfold this1. now rewrite tick_unfold. }
  assert (Hc1 : cacheMap (loader this1) !! cacheKeyFunction k = Some p).
  { rewrite E1, flush_unfold. simpl. now rewrite dispatch_cache. }
  assert (Hs1 : settled this1 p = Some s) by now rewrite E1.
  destruct (run_ticks_keeps_settled later this1 w1 _ p s HR1 Hc1 Hs1) as [Hc2 Hs2].
  fold this2 in Hc2, Hs2.
  split; [|split].
  - intros k' Hk' E. unfold batch_keys in Hk'. rewrite load_all_unfold in Hk'. simpl in Hk'.
    apply list_elem_of_fmap in Hk' as ([k'' p'] & E' & He). simpl in E'. subst k''.
    destruct HR2 as (_ & Hb2 & _).
    pose proof (load_all_new_batch_uncached calls' (loader this2) k' p' Hb2 He) as Hnone.
    rewrite E in Hnone. congruence.
  - apply (tick_cached_single this2 w2 k p HR2 Hc2).
  - exists s. split.
    + intros a Ha.
      destruct (tick_settles calls this w a k HR Ha) as (p' & s' & _ & Hc' & Hout' & Hs').
      assert (p' = p) as -> by congruence. assert (s' = s) as -> by congruence.
      exact Hout'.
    + intros a Ha. exact (tick_cached_lookup calls' this2 w2 a k p s HR2 Hc2 Hs2 Ha).
Qed.

Lemma cached_outcome_is_reused_witness :
  let this := fst (run_ticks [] (constructor good_backend action_parameters) w0) in
  let w := snd (run_ticks [] (constructor good_backend action_parameters) w0) in
  let calls := [key_search; key_eq_unknown] in
  let this1 := snd (fst (tick calls this w)) in
  let w1 := snd (tick calls this w) in
  let later := [[key_eq_S2]; [key_in; key_search]] in
  let this2 := fst (run_ticks later this1 w1) in
  let w2 := snd (run_ticks later this1 w1) in
  let calls' := [key_url_key_in; key_eq_unknown] in
  key_eq_unknown ∈ calls
  /\ snd (tick [key_eq_unknown] this2 w2) = w2
  /\ exists s : Settled,
       (forall a : nat,
           calls !! a = Some key_eq_unknown ->
           fst (fst (tick calls this w)) !! a = Some (Some s))
       /\ (forall a : nat,
             calls' !! a = Some key_eq_unknown ->
             fst (fst (tick calls' this2 w2)) !! a = Some (Some s)).
Proof.
  intros this w calls this1 w1 later this2 w2 calls'.
  assert (Hin : key_eq_unknown ∈ calls) by (right; left).
  refine (conj Hin _).
  exact (proj2 (cached_outcome_is_reused good_backend action_parameters [] w0 calls later
                  calls' key_eq_unknown Hin)).
Defined.

Example failed_key_is_not_retried :
  let this1 := snd (fst (tick [key_search; key_eq_unknown]
                           (constructor good_backend action_parameters) w0)) in
  let w1 := snd (tick [key_search; key_eq_unknown]
                   (constructor good_backend action_parameters) w0) in
  let this2 := fst (run_ticks [[key_eq_S2]] this1 w1) in
  let w2 := snd (run_ticks [[key_eq_S2]] this1 w1) in
  w2 = {| tokenCalls := 3; fetchCalls := 3 |}
  /\ fst (fst (tick [key_eq_unknown; key_in] this2 w2))
     = [Some (Fulfilled ONull); Some (Fulfilled (OResult result_in))]
  /\ batch_keys [key_eq_unknown; key_in] this2 = [key_in]
  /\ snd (tick [key_eq_unknown; key_in] this2 w2) = {| tokenCalls := 4; fetchCalls := 4 |}.
Proof. vm_compute. auto. Qed.

(** X14: in a tick the backend is asked for one token per key handed to the
    resolver, not per call of [load].  The keys handed over are among the
    keys loaded in the tick, pairwise different by cache key, and no more
    than the calls; a tick whose keys are all cached already costs nothing. *)
Theorem tick_contacts_backend_once_per_batch_key (be : Backend) (ap id : value)
    (history : list (list LoadKey)) (w0 : World) (calls : list LoadKey) :
  get ap "SPREADSHEET" = Return id ->
  let this := fst (run_ticks history (constructor be ap) w0) in
  let w := snd (run_ticks history (constructor be ap) w0) in
  let keys := batch_keys calls this in
  tokenCalls (snd (tick calls this w)) = (tokenCalls w + length keys)%nat
  /\ NoDup (map cacheKeyFunction keys)
  /\ (forall k : LoadKey, k ∈ keys -> k ∈ calls)
  /\ (length keys <= length calls)%nat
  /\ ((forall k : LoadKey, k ∈ calls ->
         is_Some (cacheMap (loader this) !! cacheKeyFunction k)) ->
      snd (tick calls this w) = w).
Proof.
  intros Hid this w keys. subst keys.
  assert (HR : Ready this) by apply Ready_run_ticks, Ready_constructor.
  destruct HR as (HI & Hb & HF).
  destruct (run_ticks_backend history (constructor be ap) w0) as [Hbe Hap].
  fold this in Hbe, Hap. simpl in Hbe, Hap.
  assert (Ew : snd (tick calls this w)
               = snd (loadingFunction be ap (batch_keys calls this) w)).
  { rewrite tick_unfold. simpl. rewrite flush_world, load_all_unfold. simpl.
    rewrite Hbe, Hap. unfold batch_keys. now rewrite load_all_unfold. }
  assert (Hsub : forall k : LoadKey, k ∈ batch_keys calls this -> k ∈ calls).
  { intros k Hk. unfold batch_keys in Hk. rewrite load_all_unfold in Hk. simpl in Hk.
    apply list_elem_of_fmap in Hk as ([k' p] & -> & He).
    destruct (load_all_batch_origin _ _ _ He) as [H|H]; [|exact H].
    rewrite Hb in H. inversion H. }
  split; [|split; [|split; [|split]]].
  - rewrite Ew. eapply loadingFunction_token_calls, Hid.
  - unfold batch_keys. rewrite load_all_unfold. simpl. rewrite map_map.
    apply (inv_batch_nodup cacheKeyFunction), Inv_load_all, HI.
  - exact Hsub.
  - unfold batch_keys. rewrite load_all_unfold. simpl. rewrite length_map.
    pose proof (load_all_batch_length calls (loader this)) as Hlen.
    rewrite Hb in Hlen. simpl in Hlen. exact Hlen.
  - intros Hcached. rewrite Ew.
    destruct (batch_keys calls this) as [|k rest] eqn:Ek; [reflexivity|]. exfalso.
    assert (Hkc : k ∈ calls) by (apply Hsub; left).
    assert (Hk : k ∈ batch_keys calls this) by (rewrite Ek; left).
    unfold batch_keys in Hk. rewrite load_all_unfold in Hk. simpl in Hk.
    apply list_elem_of_fmap in Hk as ([k' p] & E & He). simpl in E. subst k'.
    pose proof (load_all_new_batch_uncached calls (loader this) k p Hb He) as Hnone.
    destruct (Hcached k Hkc) as [q Hq]. congruence.
Qed.

Lemma tick_contacts_backend_once_per_batch_key_witness :
  let this := fst (run_ticks [] (constructor good_backend action_parameters) w0) in
  let w := snd (run_ticks [] (constructor good_backend action_parameters) w0) in
  let calls := [key_search; key_search; key_eq_S2; key_search] in
  get action_parameters "SPREADSHEET" = Return (Some (JStr "sheet-1"))
  /\ tokenCalls (snd (tick calls this w))
     = (tokenCalls w + length (batch_keys calls this))%nat.
Proof.
  intros this w calls. refine (conj eq_refl _).
  exact (proj1 (tick_contacts_backend_once_per_batch_key good_backend action_parameters
                  (Some (JStr "sheet-1")) [] w0 calls eq_refl)).
Defined.

Example four_loads_two_tokens :
  let calls := [key_search; key_search; key_eq_S2; key_search] in
  length (batch_keys calls (constructor good_backend action_parameters)) = 2%nat
  /\ snd (tick calls (constructor good_backend action_parameters) w0)
     = {| tokenCalls := 2; fetchCalls := 2 |}.
Proof. vm_compute. auto. Qed.
